(** * KChat: bounded conversation history and debounce admission

    A shallow embedding of the session store
    ([session_context/session_manager.py]) and of the message handler and
    its delayed LLM task (the package [__init__.py]), with the properties of
    the design document stated over it.

    Conventions of the embedding.
    - A Python [str] is the list of its code points ([pystr]), so that
      [len], [strip] and [split] count and test characters, not bytes.
    - A Python [int] is a [Z]; the event-loop clock
      ([asyncio.get_event_loop().time()], a float in seconds) is a
      rational [Q]; sleeps and delays are rationals as well.
    - [dict]s used as maps are [gmap]s, the pending [set] is a [gset].
    - A function that may raise returns an [outcome]; every raising path of
      the modelled code raises before it mutates anything, so the caller
      keeps the state it had.
    - A coroutine is a record of its captured arguments and the [await] it
      is suspended at; the event loop is a labelled step function. *)

From stdpp Require Import gmap strings list.
From Stdlib Require Import QArith Qminmax Lqa DecimalString.

Open Scope Z_scope.

(** ** Python values *)

(** Code points of a [str]. *)
Abbreviation pystr := (list N).

(** The code points of an ASCII literal. *)
Definition py (s : string) : pystr :=
  map (λ a, Ascii.N_of_ascii a) (String.list_ascii_of_string s).

(** [str(n)] for an [int]. *)
Definition str_of_int (n : Z) : pystr :=
  py (NilZero.string_of_int (Z.to_int n)).

(** A value that is either an [int] or a [str]; [==] between the two kinds
    is [False] in Python, which is Leibniz equality here. *)
Inductive pyval :=
| PyInt (n : Z)
| PyStr (s : pystr).

Global Instance pyval_eq_dec : EqDecision pyval.
Proof. solve_decision. Defined.

Inductive exn := ValueError | IndexError | KeyError.

Inductive outcome (A : Type) :=
| Ok (a : A)
| Raise (e : exn).
Arguments Ok {A} a.
Arguments Raise {A} e.

(** [str.isspace] on one character: the white space of the Unicode
    database that [str.strip()] and [str.split()] remove. *)
Definition isspace (c : N) : bool :=
  ((9 <=? c) && (c <=? 13) || (28 <=? c) && (c <=? 32)
   || (c =? 133) || (c =? 160) || (c =? 5760)
   || (8192 <=? c) && (c <=? 8202)
   || (c =? 8232) || (c =? 8233) || (c =? 8239) || (c =? 8287)
   || (c =? 12288))%N.

Fixpoint lstrip (s : pystr) : pystr :=
  match s with
  | c :: s' => if isspace c then lstrip s' else s
  | [] => []
  end.

Definition rstrip (s : pystr) : pystr := reverse (lstrip (reverse s)).

(** [s.strip()] *)
Definition strip (s : pystr) : pystr := rstrip (lstrip s).

(** [s.split(sep)] for a one-character separator: never empty, [['']] for
    the empty string. *)
Fixpoint split (sep : N) (s : pystr) : list pystr :=
  match s with
  | [] => [[]]
  | c :: s' =>
      if (c =? sep)%N then [] :: split sep s'
      else match split sep s' with
           | l :: ls => (c :: l) :: ls
           | [] => [[c]]
           end
  end.

(** [s.startswith(p)] *)
Fixpoint startswith (p s : pystr) : bool :=
  match p, s with
  | [], _ => true
  | a :: p', b :: s' => (a =? b)%N && startswith p' s'
  | _ :: _, [] => false
  end.

(** Truthiness of a [str]. *)
Definition nonempty (s : pystr) : bool :=
  match s with [] => false | _ => true end.

(** ** session_manager.py: message contents and messages *)

(** [SimpleMessageContent]: type ["text"] with a string, or type
    ["image_url"] with a dict of ["url"] and ["detail"]. *)
Inductive SimpleMessageContent :=
| Text (text : pystr)
| ImageUrl (url detail : pystr).

Global Instance SimpleMessageContent_eq_dec : EqDecision SimpleMessageContent.
Proof. solve_decision. Defined.

Definition is_image_url (c : SimpleMessageContent) : bool :=
  match c with ImageUrl _ _ => true | Text _ => false end.

Record SimpleMessage := {
  user_name : pystr;
  user_id : pyval;
  time : Z;
  message : list SimpleMessageContent
}.

Global Instance SimpleMessage_eq_dec : EqDecision SimpleMessage.
Proof. solve_decision. Defined.

(** A [MessageSegment] of the adapter: only its type and the data the
    store reads; [summary] is [data.get("summary")]. *)
Inductive MessageSegment :=
| SegText (text : pystr)
| SegImage (url : pystr) (summary : option pystr)
| SegMface (url : pystr) (summary : option pystr)
| SegOther.

Inductive segment_type := TyText | TyImage | TyMface | TyOther.

Definition seg_type (g : MessageSegment) : segment_type :=
  match g with
  | SegText _ => TyText
  | SegImage _ _ => TyImage
  | SegMface _ _ => TyMface
  | SegOther => TyOther
  end.

(** The test of lines 89-94: a text segment right after an mface whose
    recorded detail is that same text is dropped. *)
Definition mface_echo (contents : list SimpleMessageContent)
    (last_segment : option segment_type) (g : MessageSegment) : bool :=
  match g, last_segment with
  | SegText t, Some TyMface =>
      match last contents with
      | Some (ImageUrl _ d) => bool_decide (d = t)
      | _ => false
      end
  | _, _ => false
  end.

(** The loop of [SimpleMessage._from_message], with its two loop
    variables. *)
Fixpoint from_message_loop (segs : list MessageSegment)
    (contents : list SimpleMessageContent)
    (last_segment : option segment_type) : list SimpleMessageContent :=
  match segs with
  | [] => contents
  | g :: segs' =>
      if mface_echo contents last_segment g
      then from_message_loop segs' contents (Some TyText)
      else
        let contents' :=
          match g with
          | SegText t => contents ++ [Text t]
          | SegImage u s => contents ++ [ImageUrl u (default (py "low") s)]
          | SegMface u s => contents ++ [ImageUrl u (default (py "low") s)]
          | SegOther => contents
          end in
        from_message_loop segs' contents' (Some (seg_type g))
  end.

Definition _from_message (segs : list MessageSegment)
    : list SimpleMessageContent :=
  from_message_loop segs [] None.

(** ** session_manager.py: Session *)

Inductive session_kind := private | group.

Global Instance session_kind_eq_dec : EqDecision session_kind.
Proof. solve_decision. Defined.

Global Instance session_kind_countable : Countable session_kind.
Proof.
  refine (inj_countable'
            (λ k, match k with private => false | group => true end)
            (λ b : bool, if b then group else private) _).
  by intros [].
Defined.

Record Session := {
  session_id : Z;
  session_type : session_kind;
  self_id : Z;
  max_histories : Z;
  messages : list SimpleMessage
}.

Definition set_messages (ms : list SimpleMessage) (s : Session) : Session :=
  {| session_id := session_id s; session_type := session_type s;
     self_id := self_id s; max_histories := max_histories s;
     messages := ms |}.

(** The mergeability test of [_try_merge_message] (lines 202-203). *)
Definition mergeable (last_message new_message : SimpleMessage) : bool :=
  bool_decide (user_id last_message = user_id new_message)
  && (Z.abs (time last_message - time new_message) <=? 180).

Definition extend_message (last_message new_message : SimpleMessage)
    : SimpleMessage :=
  {| user_name := user_name last_message; user_id := user_id last_message;
     time := time last_message;
     message := message last_message ++ message new_message |}.

(** [Session._try_merge_message]: the flag it returns and the session it
    leaves. *)
Definition _try_merge_message (new_message : SimpleMessage) (s : Session)
    : bool * Session :=
  match last (messages s) with
  | None => (false, s)
  | Some last_message =>
      if mergeable last_message new_message
      then (true, set_messages
                    (removelast (messages s)
                       ++ [extend_message last_message new_message]) s)
      else (false, s)
  end.

(** [Session.add_message] on a [SimpleMessage], without the write to the
    session file, which the callers below perform on the result.
    [self.messages.pop(0)] raises [IndexError] on an empty list. *)
Definition add_message (new_message : SimpleMessage) (s : Session)
    : outcome Session :=
  let '(merged, s1) := _try_merge_message new_message s in
  if merged then Ok s1
  else if max_histories s <=? Z.of_nat (length (messages s)) then
    match messages s with
    | [] => Raise IndexError
    | _ :: rest => Ok (set_messages (rest ++ [new_message]) s)
    end
  else Ok (set_messages (messages s ++ [new_message]) s).

(** [Session.clear_history], again without the file write. *)
Definition clear_history (s : Session) : Session := set_messages [] s.

(** A caller that goes on after an exception keeps the session it had. *)
Definition add_message_or_keep (new_message : SimpleMessage) (s : Session)
    : Session :=
  match add_message new_message s with
  | Ok s' => s'
  | Raise _ => s
  end.

(** Successive calls of [add_message]. *)
Definition add_messages (ms : list SimpleMessage) (s : Session) : Session :=
  foldl (λ acc m, add_message_or_keep m acc) s ms.

(** ** session_manager.py: SessionManager *)

(** The registry [sessions], a dict keyed by the numeric id, and the
    session files [sessions/{session_type}_{session_id}.json], each holding
    the [to_dict] of a session.  Only well-formed files are modelled, and a
    file is kept as the session it was written from: the local-time string
    that [SimpleMessage.to_dict] writes for a time and [from_dict] parses
    back is left out, so a message read from a file carries the time it was
    stored with. *)
Record SessionManager := {
  sessions : gmap Z Session;
  files : gmap (session_kind * Z) Session
}.

(** [Session._save_session]: the whole session overwrites its file. *)
Definition _save_session (s : Session)
    (fs : gmap (session_kind * Z) Session) : gmap (session_kind * Z) Session :=
  <[(session_type s, session_id s) := s]> fs.

(** [Session.__init__] followed by its [_load_session]. *)
Definition Session_init (sid : Z) (kind : session_kind) (self : Z)
    (max : Z) (fs : gmap (session_kind * Z) Session) : outcome Session :=
  if sid <=? 0 then Raise ValueError
  else Ok {| session_id := sid; session_type := kind; self_id := self;
             max_histories := max;
             messages := match fs !! (kind, sid) with
                         | Some d => messages d
                         | None => []
                         end |}.

(** [Session.from_dict] on the contents [d] of a session file. *)
Definition Session_from_dict (d : Session)
    (fs : gmap (session_kind * Z) Session) : outcome Session :=
  match Session_init (session_id d) (session_type d) (self_id d)
          (max_histories d) fs with
  | Ok s => Ok (set_messages (messages d) s)
  | Raise e => Raise e
  end.

(** [SessionManager._load_all_sessions] over the files in the order the
    directory scan yields them; a file that fails to load is skipped. *)
Definition _load_all_sessions (scan : list Session)
    (fs : gmap (session_kind * Z) Session) : gmap Z Session :=
  foldl (λ acc d, match Session_from_dict d fs with
                  | Ok s => <[session_id s := s]> acc
                  | Raise _ => acc
                  end) ∅ scan.

Definition SessionManager_init (fs : gmap (session_kind * Z) Session)
    : SessionManager :=
  {| sessions := _load_all_sessions (snd <$> map_to_list fs) fs;
     files := fs |}.

(** ** The adapter's events *)

Inductive event_kind :=
| PrivateMessageEvent
| GroupMessageEvent (group_id : Z)
| OtherMessageEvent.

(** What the plugin reads of a [MessageEvent].  [event_names_bot] is the
    outcome of the name search of [check_mention] (lines 131-151) on the
    event's plain text. *)
Record MessageEvent := {
  event_kind_of : event_kind;
  event_user_id : Z;
  event_self_id : Z;
  event_time : Z;
  event_nickname : option pystr;
  event_raw_message : pystr;
  event_message : list MessageSegment;
  event_is_tome : bool;
  event_names_bot : bool
}.

(** [event.group_id if isinstance(event, GroupMessageEvent) else
    event.user_id] *)
Definition event_session_id (event : MessageEvent) : Z :=
  match event_kind_of event with
  | GroupMessageEvent gid => gid
  | _ => event_user_id event
  end.

Definition event_session_type (event : MessageEvent) : session_kind :=
  match event_kind_of event with
  | GroupMessageEvent _ => group
  | _ => private
  end.

(** [SimpleMessage(event, event.time)] *)
Definition SimpleMessage_of_event (event : MessageEvent) : SimpleMessage :=
  {| user_name := default [] (event_nickname event);
     user_id := PyInt (event_user_id event);
     time := event_time event;
     message := _from_message (event_message event) |}.

(** [SessionManager.get_session]: the session for the event and the
    registry it leaves. *)
Definition get_session (event : MessageEvent) (m : SessionManager)
    : outcome (Session * SessionManager) :=
  let sid := event_session_id event in
  match sessions m !! sid with
  | Some s => Ok (s, m)
  | None =>
      match Session_init sid (event_session_type event)
              (event_self_id event) 10 (files m) with
      | Ok s => Ok (s, {| sessions := <[sid := s]> (sessions m);
                          files := files m |})
      | Raise e => Raise e
      end
  end.

(** [self.sessions[sid].add_message(msg)], file write included. *)
Definition store_message (sid : Z) (msg : SimpleMessage)
    (m : SessionManager) : outcome SessionManager :=
  match sessions m !! sid with
  | None => Raise KeyError
  | Some s =>
      match add_message msg s with
      | Ok s' => Ok {| sessions := <[sid := s']> (sessions m);
                       files := _save_session s' (files m) |}
      | Raise e => Raise e
      end
  end.

(** [SessionManager.add_self_message]: an absent session is only logged,
    and so is an exception. *)
Definition add_self_message (sid : Z) (msg : SimpleMessage)
    (m : SessionManager) : SessionManager :=
  match store_message sid msg m with
  | Ok m' => m'
  | Raise _ => m
  end.

(** [SessionManager.delete_session] *)
Definition delete_session (sid : Z) (m : SessionManager) : SessionManager :=
  match sessions m !! sid with
  | Some s => {| sessions := delete sid (sessions m);
                 files := delete (session_type s, sid) (files m) |}
  | None => m
  end.

(** ** __init__.py: access and mention checks *)

Record Config := {
  admin_id : list Z;
  private_enable_whitelist : bool;
  private_whitelist : list Z;
  private_blacklist : list Z;
  group_enable_whitelist : bool;
  group_whitelist : list Z;
  group_blacklist : list Z;
  character_name : pystr
}.

Definition is_command (raw : pystr) : bool :=
  let s := strip raw in
  startswith (py "/") s || startswith (py "!") s || startswith (py ".") s.

Definition check_access (cfg : Config) (event : MessageEvent) : bool :=
  if is_command (event_raw_message event) then false
  else match event_kind_of event with
       | PrivateMessageEvent =>
           if bool_decide (event_user_id event ∈ admin_id cfg) then true
           else if private_enable_whitelist cfg
           then bool_decide (event_user_id event ∈ private_whitelist cfg)
           else negb (bool_decide (event_user_id event ∈ private_blacklist cfg))
       | GroupMessageEvent gid =>
           if group_enable_whitelist cfg
           then bool_decide (gid ∈ group_whitelist cfg)
           else negb (bool_decide (gid ∈ group_blacklist cfg))
       | OtherMessageEvent => false
       end.

Definition check_mention (cfg : Config) (event : MessageEvent) : bool :=
  if negb (check_access cfg event) then false
  else match event_kind_of event with
       | PrivateMessageEvent => true
       | _ => if event_is_tome event then true else event_names_bot event
       end.

(** ** __init__.py: SessionState *)

Record SessionState := {
  last_message_time : gmap Z Q;
  pending_sessions : gset Z
}.

Definition update_time (now : Q) (sid : Z) (st : SessionState)
    : SessionState :=
  {| last_message_time := <[sid := now]> (last_message_time st);
     pending_sessions := pending_sessions st |}.

Definition add_pending (sid : Z) (st : SessionState) : SessionState :=
  {| last_message_time := last_message_time st;
     pending_sessions := {[sid]} ∪ pending_sessions st |}.

Definition remove_pending (sid : Z) (st : SessionState) : SessionState :=
  {| last_message_time := last_message_time st;
     pending_sessions := pending_sessions st ∖ {[sid]} |}.

Definition is_pending (sid : Z) (st : SessionState) : bool :=
  bool_decide (sid ∈ pending_sessions st).

(** Reading [last_message_time[sid]]: a [defaultdict(float)] yields and
    stores [0.0] for a missing key. *)
Definition read_time (sid : Z) (st : SessionState) : Q * SessionState :=
  match last_message_time st !! sid with
  | Some t => (t, st)
  | None => (0%Q, update_time 0%Q sid st)
  end.

(** ** __init__.py: handle_llm_query *)

(** How [api_client.chat_completion] ends: it raises, or it returns
    [None] or a string. *)
Inductive completion :=
| Raised
| Returned (response : option pystr).

Definition newline : N := 10%N.

(** [handle_llm_query]: the stripped non-blank lines of the response, and
    [[]] for an exception or a missing or empty response. *)
Definition handle_llm_query (c : completion) : list pystr :=
  match c with
  | Returned (Some response) =>
      if nonempty response
      then map strip
             (List.filter (λ line, nonempty (strip line))
                (split newline response))
      else []
  | _ => []
  end.

(** [max(0.75, min(1.5, len(msg) / 60))] *)
Definition delay (msg : pystr) : Q :=
  Qmax (3 # 4) (Qmin (3 # 2) (inject_Z (Z.of_nat (length msg)) / 60)).

(** ** __init__.py: the delayed task and the handler *)

(** The [await] a [delayed_llm_query] coroutine is suspended at.
    [Sending] and [Pacing] carry the whole list [messages] and the parts
    still to send. *)
Inductive stage :=
| Created
| Debouncing (wake : Q)
| Querying
| Sending (parts rest : list pystr)
| Pacing (wake : Q) (parts : list pystr) (msg : pystr) (rest : list pystr)
| Exited.

Record Task := {
  task_event : MessageEvent;
  task_stage : stage
}.

Definition task_session_id (t : Task) : Z := event_session_id (task_event t).

(** A cycle is in flight from its first step to its exit. *)
Definition in_flight (s : stage) : bool :=
  match s with
  | Created | Exited => false
  | _ => true
  end.

(** The plugin's process: configuration, [session_manager],
    [session_state], the tasks made by [asyncio.create_task] in creation
    order, the calls of [matcher.send] (loop time, task, text) oldest first,
    and the loop clock at the last step. *)
Record World := {
  config : Config;
  manager : SessionManager;
  session_state : SessionState;
  tasks : list Task;
  sent : list (Q * nat * pystr);
  clock : Q
}.

Definition set_manager (m : SessionManager) (w : World) : World :=
  {| config := config w; manager := m; session_state := session_state w;
     tasks := tasks w; sent := sent w; clock := clock w |}.

Definition set_session_state (st : SessionState) (w : World) : World :=
  {| config := config w; manager := manager w; session_state := st;
     tasks := tasks w; sent := sent w; clock := clock w |}.

Definition set_tasks (ts : list Task) (w : World) : World :=
  {| config := config w; manager := manager w;
     session_state := session_state w;
     tasks := ts; sent := sent w; clock := clock w |}.

Definition set_clock (now : Q) (w : World) : World :=
  {| config := config w; manager := manager w;
     session_state := session_state w;
     tasks := tasks w; sent := sent w; clock := now |}.

(** [await matcher.send(text)] is issued. *)
Definition send (now : Q) (tid : nat) (text : pystr) (w : World) : World :=
  {| config := config w; manager := manager w;
     session_state := session_state w;
     tasks := tasks w; sent := sent w ++ [(now, tid, text)];
     clock := clock w |}.

(** [asyncio.create_task(delayed_llm_query(event, session, matcher))]: the
    coroutine is scheduled, none of its body has run. *)
Definition create_task (event : MessageEvent) (w : World) : World :=
  set_tasks (tasks w ++ [{| task_event := event; task_stage := Created |}]) w.

(** [handle_all_message] at loop time [now].  An exception of
    [get_session] or [add_message] leaves through the outer [except],
    before [update_time]. *)
Definition handle_all_message (now : Q) (event : MessageEvent) (w : World)
    : World :=
  if negb (check_access (config w) event) then w
  else
    match get_session event (manager w) with
    | Raise _ => w
    | Ok (_, m1) =>
        let sid := event_session_id event in
        match store_message sid (SimpleMessage_of_event event) m1 with
        | Raise _ => set_manager m1 w
        | Ok m2 =>
            let w1 := set_manager m2 w in
            let w2 := set_session_state
                        (update_time now sid (session_state w1)) w1 in
            if check_mention (config w2) event
               && negb (is_pending sid (session_state w2))
            then create_task event w2
            else w2
        end
    end.

(** [handle_clear] *)
Definition handle_clear (event : MessageEvent) (w : World) : World :=
  match get_session event (manager w) with
  | Raise _ => w
  | Ok (s, m1) =>
      let s' := clear_history s in
      set_manager {| sessions := <[event_session_id event := s']> (sessions m1);
                     files := _save_session s' (files m1) |} w
  end.

(** The bot's own message, lines 204-209: [user_id] is the string
    [str(event.self_id)], which [from_dict] stores as it is; [wall] is
    [datetime.now()] in whole seconds. *)
Definition bot_message (cfg : Config) (event : MessageEvent) (wall : Z)
    (parts : list pystr) : SimpleMessage :=
  {| user_name := character_name cfg;
     user_id := PyStr (str_of_int (event_self_id event));
     time := wall;
     message := map Text parts |}.

(** What resumes a suspended coroutine. *)
Inductive signal :=
| Begin
| Timer
| Response (c : completion)
| Delivered (wall : Z)
| SendError
| Cancelled.

(** The [finally] clause. *)
Definition finally (sid : Z) (w : World) : World :=
  set_session_state (remove_pending sid (session_state w)) w.

(** [delayed_llm_query] from one [await] to the next: the stage reached
    and the process left, or [None] when the signal does not belong to the
    stage.  A sleep never ends before its time. *)
Definition delayed_llm_query (now : Q) (tid : nat) (t : Task) (sig : signal)
    (w : World) : option (stage * World) :=
  let sid := task_session_id t in
  match task_stage t, sig with
  | Created, Begin =>
      let st := update_time now sid (add_pending sid (session_state w)) in
      Some (Debouncing (now + 5), set_session_state st w)
  | Created, Cancelled => Some (Exited, w)
  | Debouncing wake, Timer =>
      if Qle_bool wake now then
        let '(last_time, st) := read_time sid (session_state w) in
        if Qle_bool 3 (now - last_time)
        then Some (Querying, set_session_state st w)
        else Some (Debouncing (now + 5), set_session_state st w)
      else None
  | Querying, Response c =>
      match handle_llm_query c with
      | [] => Some (Exited, finally sid w)
      | first_msg :: rest =>
          Some (Sending (first_msg :: rest) rest, send now tid first_msg w)
      end
  | Sending parts (msg :: rest), Delivered _ =>
      Some (Pacing (now + delay msg) parts msg rest, w)
  | Sending parts [], Delivered wall =>
      let m := add_self_message sid
                 (bot_message (config w) (task_event t) wall parts)
                 (manager w) in
      Some (Exited, finally sid (set_manager m w))
  | Sending _ _, SendError => Some (Exited, finally sid w)
  | Pacing wake parts msg rest, Timer =>
      if Qle_bool wake now
      then Some (Sending parts rest, send now tid msg w)
      else None
  | Debouncing _, Cancelled | Querying, Cancelled
  | Sending _ _, Cancelled | Pacing _ _ _ _, Cancelled =>
      Some (Exited, finally sid w)
  | _, _ => None
  end.

(** ** The event loop *)

(** One callback of the loop: the handler runs for an inbound event, or a
    task is resumed. *)
Inductive label :=
| Inbound (now : Q) (event : MessageEvent)
| Resume (now : Q) (tid : nat) (sig : signal).

Definition label_time (l : label) : Q :=
  match l with
  | Inbound now _ => now
  | Resume now _ _ => now
  end.

Definition set_stage (tid : nat) (s : stage) (w : World) : World :=
  set_tasks (alter (λ t, {| task_event := task_event t; task_stage := s |})
               tid (tasks w)) w.

(** One step; the loop clock never goes back. *)
Definition step (w : World) (l : label) : option World :=
  if Qle_bool (clock w) (label_time l) then
    let w0 := set_clock (label_time l) w in
    match l with
    | Inbound now event => Some (handle_all_message now event w0)
    | Resume now tid sig =>
        match tasks w0 !! tid with
        | Some t =>
            match delayed_llm_query now tid t sig w0 with
            | Some (s, w1) => Some (set_stage tid s w1)
            | None => None
            end
        | None => None
        end
    end
  else None.

Fixpoint run (w : World) (tr : list label) : option World :=
  match tr with
  | [] => Some w
  | l :: tr' =>
      match step w l with
      | Some w' => run w' tr'
      | None => None
      end
  end.

(** The process right after start-up. *)
Definition start_world (cfg : Config) (m : SessionManager) : World :=
  {| config := cfg; manager := m;
     session_state := {| last_message_time := ∅; pending_sessions := ∅ |};
     tasks := []; sent := []; clock := 0 |}.

Definition stage_of (w : World) (tid : nat) : option stage :=
  task_stage <$> tasks w !! tid.

(** ** config_manager.py: the access lists *)

(** [if x in l: return] followed by [l.append(x)]. *)
Definition append_new (x : Z) (l : list Z) : list Z :=
  if bool_decide (x ∈ l) then l else l ++ [x].

(** [l.remove(x)]: the first occurrence goes. *)
Fixpoint remove_first (x : Z) (l : list Z) : list Z :=
  match l with
  | [] => []
  | y :: l' => if bool_decide (y = x) then l' else y :: remove_first x l'
  end.

(** [if x not in l: return] followed by [l.remove(x)]. *)
Definition remove_present (x : Z) (l : list Z) : list Z :=
  if bool_decide (x ∈ l) then remove_first x l else l.

Inductive list_type := whitelist | blacklist.

Definition set_admin_id (l : list Z) (cfg : Config) : Config :=
  {| admin_id := l;
     private_enable_whitelist := private_enable_whitelist cfg;
     private_whitelist := private_whitelist cfg;
     private_blacklist := private_blacklist cfg;
     group_enable_whitelist := group_enable_whitelist cfg;
     group_whitelist := group_whitelist cfg;
     group_blacklist := group_blacklist cfg;
     character_name := character_name cfg |}.

Definition user_list (lt : list_type) (cfg : Config) : list Z :=
  match lt with
  | whitelist => private_whitelist cfg
  | blacklist => private_blacklist cfg
  end.

Definition set_user_list (lt : list_type) (l : list Z) (cfg : Config)
    : Config :=
  {| admin_id := admin_id cfg;
     private_enable_whitelist := private_enable_whitelist cfg;
     private_whitelist :=
       match lt with whitelist => l | blacklist => private_whitelist cfg end;
     private_blacklist :=
       match lt with blacklist => l | whitelist => private_blacklist cfg end;
     group_enable_whitelist := group_enable_whitelist cfg;
     group_whitelist := group_whitelist cfg;
     group_blacklist := group_blacklist cfg;
     character_name := character_name cfg |}.

Definition group_list (lt : list_type) (cfg : Config) : list Z :=
  match lt with
  | whitelist => group_whitelist cfg
  | blacklist => group_blacklist cfg
  end.

Definition set_group_list (lt : list_type) (l : list Z) (cfg : Config)
    : Config :=
  {| admin_id := admin_id cfg;
     private_enable_whitelist := private_enable_whitelist cfg;
     private_whitelist := private_whitelist cfg;
     private_blacklist := private_blacklist cfg;
     group_enable_whitelist := group_enable_whitelist cfg;
     group_whitelist :=
       match lt with whitelist => l | blacklist => group_whitelist cfg end;
     group_blacklist :=
       match lt with blacklist => l | whitelist => group_blacklist cfg end;
     character_name := character_name cfg |}.

(** [ConfigManager.add_admin] and the like, on the configuration in
    memory; each also rewrites the settings file, which is not modelled. *)
Definition add_admin (u : Z) (cfg : Config) : Config :=
  set_admin_id (append_new u (admin_id cfg)) cfg.

Definition remove_admin (u : Z) (cfg : Config) : Config :=
  set_admin_id (remove_present u (admin_id cfg)) cfg.

Definition add_user (lt : list_type) (u : Z) (cfg : Config) : Config :=
  set_user_list lt (append_new u (user_list lt cfg)) cfg.

Definition remove_user (lt : list_type) (u : Z) (cfg : Config) : Config :=
  set_user_list lt (remove_present u (user_list lt cfg)) cfg.

Definition add_group (lt : list_type) (g : Z) (cfg : Config) : Config :=
  set_group_list lt (append_new g (group_list lt cfg)) cfg.

Definition remove_group (lt : list_type) (g : Z) (cfg : Config) : Config :=
  set_group_list lt (remove_present g (group_list lt cfg)) cfg.

(** ** Objects read from and written to JSON *)

(** The JSON-like objects that the serialisers and the API client handle;
    a [dict] is its list of items in insertion order, keys distinct. *)
#[warnings="-register-all"] Inductive pyobj :=
| ObjNone
| ObjStr (s : pystr)
| ObjInt (n : Z)
| ObjList (elements : list pyobj)
| ObjDict (items : list (pystr * pyobj)).

Fixpoint dict_get (k : pystr) (items : list (pystr * pyobj)) : option pyobj :=
  match items with
  | [] => None
  | (k', v) :: items' => if bool_decide (k' = k) then Some v else dict_get k items'
  end.

(** [d[k] = v] *)
Fixpoint dict_set (k : pystr) (v : pyobj) (items : list (pystr * pyobj))
    : list (pystr * pyobj) :=
  match items with
  | [] => [(k, v)]
  | (k', v') :: items' =>
      if bool_decide (k' = k) then (k, v) :: items'
      else (k', v') :: dict_set k v items'
  end.

Definition has_key (k : pystr) (items : list (pystr * pyobj)) : bool :=
  match dict_get k items with Some _ => true | None => false end.

(** Truthiness. *)
Definition truthy (o : pyobj) : bool :=
  match o with
  | ObjNone => false
  | ObjStr s => nonempty s
  | ObjInt n => negb (n =? 0)
  | ObjList elements => match elements with [] => false | _ => true end
  | ObjDict items => match items with [] => false | _ => true end
  end.

(** ** session_manager.py: SimpleMessageContent as an object *)

(** An instance of the class: its attributes [type] and [data]. *)
Record ContentObject := {
  obj_type : pystr;
  obj_data : pyobj
}.

(** [SimpleMessageContent.__init__] *)
Definition SimpleMessageContent_init (msg_type : pystr) (data : pyobj)
    : outcome ContentObject :=
  if bool_decide (msg_type = py "image_url") then
    match data with
    | ObjDict items =>
        if has_key (py "url") items && has_key (py "detail") items
        then Ok {| obj_type := msg_type; obj_data := data |}
        else Raise ValueError
    | _ => Raise ValueError
    end
  else
    match data with
    | ObjStr _ => Ok {| obj_type := msg_type; obj_data := data |}
    | _ => Raise ValueError
    end.

(** [SimpleMessageContent.to_dict]: [{"type": self.type, self.type:
    self.data}]. *)
Definition content_to_dict (c : ContentObject) : list (pystr * pyobj) :=
  dict_set (obj_type c) (obj_data c)
    (dict_set (py "type") (ObjStr (obj_type c)) []).

(** [SimpleMessageContent.from_dict]; a missing key is a [KeyError]. *)
Definition content_from_dict (data : list (pystr * pyobj))
    : outcome ContentObject :=
  match dict_get (py "type") data with
  | None => Raise KeyError
  | Some (ObjStr t) =>
      if bool_decide (t = py "text") || bool_decide (t = py "image_url")
      then match dict_get t data with
           | None => Raise KeyError
           | Some d => SimpleMessageContent_init t d
           end
      else Raise ValueError
  | Some _ => Raise ValueError
  end.

(** The object behind a content of the store. *)
Definition content_object (c : SimpleMessageContent) : ContentObject :=
  match c with
  | Text t => {| obj_type := py "text"; obj_data := ObjStr t |}
  | ImageUrl u d =>
      {| obj_type := py "image_url";
         obj_data := ObjDict [(py "url", ObjStr u); (py "detail", ObjStr d)] |}
  end.

(** ** llm_client.py: _extract_response_content *)

(** [o.get(k, dflt)], which raises unless [o] is a dict; every exception
    inside [_extract_response_content] is caught by the one handler, so a
    raising step is [None] here. *)
Definition obj_get (k : pystr) (dflt : pyobj) (o : pyobj) : option pyobj :=
  match o with
  | ObjDict items => Some (default dflt (dict_get k items))
  | _ => None
  end.

(** [o[0]] *)
Definition obj_first (o : pyobj) : option pyobj :=
  match o with
  | ObjList (x :: _) => Some x
  | ObjStr (c :: _) => Some (ObjStr [c])
  | _ => None
  end.

Definition _extract_response_content (result : pyobj) : pyobj :=
  default (ObjStr [])
    (choices ← obj_get (py "choices") ObjNone result;
     if negb (truthy choices) then Some (ObjStr [])
     else
       choice ← obj_first choices;
       _ ← obj_get (py "finish_reason") ObjNone choice;
       message ← obj_get (py "message") ObjNone choice;
       if truthy message then obj_get (py "content") (ObjStr []) message
       else
         delta ← obj_get (py "delta") ObjNone choice;
         if truthy delta then obj_get (py "content") (ObjStr []) delta
         else Some (ObjStr [])).

(** How [handle_llm_query] sees what [chat_completion] returns: a string,
    [None], or an object on which [response.split] raises (or which is
    falsy), which ends like an exception. *)
Definition response_completion (o : pyobj) : completion :=
  match o with
  | ObjStr s => Returned (Some s)
  | ObjNone => Returned None
  | _ => Raised
  end.

(** ** Notions used in the statements *)

(** Every pending conversation has a cycle in flight. *)
Definition pending_covered (w : World) : Prop :=
  ∀ sid, sid ∈ pending_sessions (session_state w) →
         ∃ tid t, tasks w !! tid = Some t
                  ∧ task_session_id t = sid
                  ∧ in_flight (task_stage t) = true.

(** No cycle of conversation [sid] is in flight. *)
Definition at_rest (sid : Z) (w : World) : Prop :=
  ∀ tid t, tasks w !! tid = Some t → task_session_id t = sid →
           in_flight (task_stage t) = false.

(** The clock is past every recorded activity, and a debouncing cycle
    wakes less than [3 + 5] seconds after the recorded activity of its
    conversation. *)
Definition debounce_bound (w : World) : Prop :=
  (∀ sid t, last_message_time (session_state w) !! sid = Some t →
            (t <= clock w)%Q)
  ∧ (∀ tid task wake,
       tasks w !! tid = Some task →
       task_stage task = Debouncing wake →
       ∃ t, last_message_time (session_state w) !! task_session_id task
            = Some t
            ∧ (wake - t < 3 + 5)%Q).

(** Loop time of the last inbound event of conversation [sid] in a trace
    that qualifies, that is, passes [check_mention]. *)
Fixpoint last_qualifying (cfg : Config) (sid : Z) (tr : list label)
    : option Q :=
  match tr with
  | [] => None
  | l :: tr' =>
      match last_qualifying cfg sid tr' with
      | Some t => Some t
      | None =>
          match l with
          | Inbound now event =>
              if check_mention cfg event
                 && bool_decide (event_session_id event = sid)
              then Some now else None
          | Resume _ _ _ => None
          end
      end
  end.

(** The stage of task [tid] after a run. *)
Definition stage_after (w : World) (tr : list label) (tid : nat)
    : option stage :=
  w' ← run w tr; stage_of w' tid.

(** A line that [strip] empties. *)
Definition blank (line : pystr) : Prop := strip line = [].

(** The query failed, or its result has no line that is not blank. *)
Definition failed (c : completion) : Prop :=
  c = Raised ∨ c = Returned None
  ∨ ∃ response, c = Returned (Some response)
                ∧ Forall blank (split newline response).

(** [len(msg) / 60] *)
Definition per_sixty (msg : pystr) : Q :=
  inject_Z (Z.of_nat (length msg)) / 60.

(** No message of the list is mergeable with the one before it. *)
Definition unmergeable_chain (ms : list SimpleMessage) : Prop :=
  ∀ i a b, ms !! i = Some a → ms !! S i = Some b → mergeable a b = false.

(** The content a segment is turned into, if any. *)
Definition segment_content (g : MessageSegment)
    : option SimpleMessageContent :=
  match g with
  | SegText t => Some (Text t)
  | SegImage u sm => Some (ImageUrl u (default (py "low") sm))
  | SegMface u sm => Some (ImageUrl u (default (py "low") sm))
  | SegOther => None
  end.

Definition segment_image (g : MessageSegment) : option SimpleMessageContent :=
  match g with
  | SegText _ => None
  | _ => segment_content g
  end.

Definition is_mface (g : MessageSegment) : bool :=
  match g with SegMface _ _ => true | _ => false end.

(** Whether the text segment [g] repeats the detail recorded for the
    mface segment [prev] right before it: its summary, or ["low"]. *)
Definition is_echo (prev : option MessageSegment) (g : MessageSegment)
    : bool :=
  match prev, g with
  | Some (SegMface _ sm), SegText t => bool_decide (default (py "low") sm = t)
  | _, _ => false
  end.

(** What the segments after [prev] contribute, one segment at a time: an
    echo nothing, any other segment its content. *)
Fixpoint extracted (prev : option MessageSegment)
    (segs : list MessageSegment) : list SimpleMessageContent :=
  match segs with
  | [] => []
  | g :: segs' =>
      (if is_echo prev g then [] else option_list (segment_content g))
      ++ extracted (Some g) segs'
  end.

(** What it is for [add] and [remove] to edit the list that [get]
    reads: the added id is in the list, adding again changes nothing, no
    duplicate is created; from a list without duplicates the removed id is
    gone and every other entry stays; and removing an id just added to a
    list that lacked it restores the configuration. *)
Definition edits_list (get : Config → list Z)
    (add remove : Z → Config → Config) : Prop :=
  ∀ cfg x,
    x ∈ get (add x cfg)
    ∧ add x (add x cfg) = add x cfg
    ∧ (NoDup (get cfg) →
       NoDup (get (add x cfg))
       ∧ (x ∉ get (remove x cfg))
       ∧ NoDup (get (remove x cfg))
       ∧ ∀ y, y ≠ x → (y ∈ get (remove x cfg) ↔ y ∈ get cfg))
    ∧ (x ∉ get cfg → remove x (add x cfg) = cfg).

(** The other list of a pair. *)
Definition other_list (lt : list_type) : list_type :=
  match lt with whitelist => blacklist | blacklist => whitelist end.

(** Every registered session carries the id it is registered under, and
    that id is positive. *)
Definition registry_coherent (m : SessionManager) : Prop :=
  ∀ k s, sessions m !! k = Some s → session_id s = k ∧ 0 < k.

(** ** Sample inputs *)

Definition open_config : Config :=
  {| admin_id := []; private_enable_whitelist := false;
     private_whitelist := []; private_blacklist := [];
     group_enable_whitelist := false; group_whitelist := [];
     group_blacklist := []; character_name := py "kanade" |}.

Definition no_sessions : SessionManager := {| sessions := ∅; files := ∅ |}.

(** A text message of user 42 in group 7; the bot is user 99. *)
Definition group_text (to_me : bool) (t : Z) (text : string) : MessageEvent :=
  {| event_kind_of := GroupMessageEvent 7; event_user_id := 42;
     event_self_id := 99; event_time := t;
     event_nickname := Some (py "bob"); event_raw_message := py text;
     event_message := [SegText (py text)];
     event_is_tome := to_me; event_names_bot := false |}.

(** A private text message of user 7 to the same bot. *)
Definition private_text (t : Z) (text : string) : MessageEvent :=
  {| event_kind_of := PrivateMessageEvent; event_user_id := 7;
     event_self_id := 99; event_time := t;
     event_nickname := Some (py "eve"); event_raw_message := py text;
     event_message := [SegText (py text)];
     event_is_tome := false; event_names_bot := false |}.

Definition text_message (uid t : Z) (text : string) : SimpleMessage :=
  {| user_name := py "bob"; user_id := PyInt uid; time := t;
     message := [Text (py text)] |}.

Definition sample_session (max : Z) (ms : list SimpleMessage) : Session :=
  {| session_id := 7; session_type := group; self_id := 99;
     max_histories := max; messages := ms |}.


(** A message that mentions the bot, and one that is admitted but does
    not. *)
Definition mention (t : Z) : MessageEvent := group_text true t "hi".
Definition chatter (t : Z) : MessageEvent := group_text false t "yo".

Definition fresh_world : World := start_world open_config no_sessions.

(** The process after a mention at 0, the start of its cycle, a second
    mention at 4 and the failed check at 5. *)
Definition quiet_world : World :=
  default fresh_world
    (run fresh_world
       [Inbound 0 (mention 100); Resume 0 0%nat Begin;
        Inbound 4 (mention 104); Resume 5 0%nat Timer]).

(** The process after a mention at 0 and the start of its cycle. *)
Definition debouncing_world : World :=
  default fresh_world
    (run fresh_world [Inbound 0 (mention 100); Resume 0 0%nat Begin]).

(** A whole cycle: a mention at 0, the check at 5, a two-line answer at
    6 whose second line has 90 characters, delivered at once each time;
    the bot's message is built at wall-clock second 500. *)
Definition long_line : pystr := repeat 97%N 90.

Definition two_lines : pystr := py "hi" ++ [newline] ++ long_line.

Definition whole_cycle : list label :=
  [Inbound 0 (mention 100); Resume 0 0%nat Begin; Resume 5 0%nat Timer;
   Resume 6 0%nat (Response (Returned (Some two_lines)));
   Resume 6 0%nat (Delivered 0);
   Resume (15 # 2) 0%nat Timer;
   Resume (15 # 2) 0%nat (Delivered 500)].

(** An answer of blank lines only. *)
Definition blank_answer : pystr := [newline] ++ py "  " ++ [newline].

(** An answer whose only non-blank line is ["ok"]. *)
Definition ok_answer : pystr := [newline] ++ py "ok" ++ [newline].

(** The process of [debouncing_world] after the check at 5 fired. *)
Definition querying_world : World :=
  default debouncing_world (step debouncing_world (Resume 5 0%nat Timer)).

Definition aborted_world : World :=
  default querying_world
    (step querying_world
       (Resume 6 0%nat (Response (Returned (Some blank_answer))))).

(** After the two-line answer arrived at 6 and its first line was
    delivered. *)
Definition sending_world : World :=
  default querying_world
    (step querying_world
       (Resume 6 0%nat (Response (Returned (Some two_lines))))).

Definition pacing_world : World :=
  default sending_world (step sending_world (Resume 6 0%nat (Delivered 0))).

(** The process after the whole cycle. *)
Definition replied_world : World :=
  default fresh_world (run fresh_world whole_cycle).

(** Two mentions whose handlers both run before the first task starts. *)
Definition burst : list label :=
  [Inbound 0 (mention 100); Inbound (1 # 100) (mention 100);
   Resume (1 # 100) 0%nat Begin; Resume (1 # 100) 1%nat Begin].

(** The process of [debouncing_world] after its cycle was cancelled. *)
Definition cancelled_world : World :=
  default debouncing_world
    (step debouncing_world (Resume 1 0%nat Cancelled)).

(** A registry with the one, empty, conversation 7, and what it becomes
    when a message is stored. *)
Definition one_session_manager : SessionManager :=
  {| sessions := {[7 := sample_session 10 []]}; files := ∅ |}.

Definition stored_manager : SessionManager :=
  add_self_message 7 (text_message 42 100 "a") one_session_manager.

(** A private text message of user [u]. *)
Definition private_from (u : Z) (text : string) : MessageEvent :=
  {| event_kind_of := PrivateMessageEvent; event_user_id := u;
     event_self_id := 99; event_time := 100;
     event_nickname := None; event_raw_message := py text;
     event_message := [SegText (py text)];
     event_is_tome := false; event_names_bot := false |}.

(** An answer with white space around its lines and a line of white
    space only: [" ok "], a tab, ["a b  "]. *)
Definition spaced_answer : pystr :=
  py " ok " ++ [newline] ++ [9%N] ++ [newline] ++ py "a b  ".

(** Closed facts about sample runs are settled by evaluation, one
    conjunct at a time. *)
Ltac split_conj := repeat match goal with |- _ ∧ _ => split end.
Ltac by_evaluation := split_conj; vm_compute; reflexivity.

(** * Properties of the history store *)

Section Store.
Implicit Types (s : Session) (new : SimpleMessage).

Lemma mergeable_spec (a b : SimpleMessage) :
  mergeable a b = true ↔
  user_id a = user_id b ∧ Z.abs (time a - time b) <= 180.
Proof.
  unfold mergeable.
  rewrite andb_true_iff, bool_decide_eq_true, Z.leb_le. tauto.
Qed.

Lemma try_merge_snoc new s pre last_message :
  messages s = pre ++ [last_message] →
  _try_merge_message new s =
    if mergeable last_message new
    then (true, set_messages (pre ++ [extend_message last_message new]) s)
    else (false, s).
Proof.
  intros Hm. unfold _try_merge_message.
  rewrite Hm, last_snoc, removelast_last. reflexivity.
Qed.

Lemma try_merge_nil new s :
  messages s = [] → _try_merge_message new s = (false, s).
Proof. intros Hm. unfold _try_merge_message. now rewrite Hm. Qed.

Lemma try_merge_length new s :
  length (messages (snd (_try_merge_message new s))) = length (messages s).
Proof.
  destruct (messages s) as [|m ms] eqn:Hm using rev_ind.
  - rewrite try_merge_nil by done. simpl. now rewrite Hm.
  - rewrite (try_merge_snoc _ _ _ _ Hm).
    destruct (mergeable _ _); simpl; rewrite ?Hm, !length_app; done.
Qed.

Lemma try_merge_max_histories new s :
  max_histories (snd (_try_merge_message new s)) = max_histories s.
Proof.
  unfold _try_merge_message.
  destruct (last (messages s)); [destruct (mergeable _ _)|]; done.
Qed.

Lemma add_message_max_histories new s s' :
  add_message new s = Ok s' → max_histories s' = max_histories s.
Proof.
  unfold add_message.
  pose proof (try_merge_max_histories new s) as Hmax.
  destruct (_try_merge_message new s) as [[] s1]; simpl in Hmax.
  - intros [= <-]. done.
  - destruct (_ <=? _); [destruct (messages s)|]; intros [= <-]; done.
Qed.

Lemma add_message_length new s s' :
  add_message new s = Ok s' →
  Z.of_nat (length (messages s)) <= max_histories s →
  Z.of_nat (length (messages s')) <= max_histories s.
Proof.
  unfold add_message.
  pose proof (try_merge_length new s) as Hlen.
  destruct (_try_merge_message new s) as [[] s1]; simpl in Hlen.
  - intros [= <-]. lia.
  - destruct (Z.leb_spec (max_histories s) (Z.of_nat (length (messages s))))
      as [Hfull|Hroom].
    + destruct (messages s) as [|m ms]; [done|].
      intros [= <-]. simpl in *. rewrite length_app. simpl. lia.
    + intros [= <-]. simpl. rewrite length_app. simpl. lia.
Qed.

Lemma add_message_or_keep_bounded new s :
  Z.of_nat (length (messages s)) <= max_histories s →
  max_histories (add_message_or_keep new s) = max_histories s
  ∧ Z.of_nat (length (messages (add_message_or_keep new s)))
    <= max_histories s.
Proof.
  intros Hinv. unfold add_message_or_keep.
  destruct (add_message new s) as [s'|e] eqn:Hadd; [|done].
  split; [by eapply add_message_max_histories
         |by eapply add_message_length].
Qed.

Lemma add_messages_bounded (ms : list SimpleMessage) s :
  Z.of_nat (length (messages s)) <= max_histories s →
  max_histories (add_messages ms s) = max_histories s
  ∧ Z.of_nat (length (messages (add_messages ms s))) <= max_histories s.
Proof.
  revert s. induction ms as [|m ms IH]; intros s Hinv; [done|].
  unfold add_messages. simpl. fold (add_messages ms (add_message_or_keep m s)).
  destruct (add_message_or_keep_bounded m s Hinv) as [Hmax Hlen].
  destruct (IH (add_message_or_keep m s)) as [Hmax' Hlen']; [lia|].
  split; lia.
Qed.

(** C2. A conversation of capacity [C] whose list holds at most [C]
    messages (an empty one in particular) still holds at most [C]
    messages after every call of [add_message], whatever messages are
    appended: the bound holds after each of the first [k] calls of any
    sequence [ms], for every [k]. *)
Theorem capacity_invariant (C : Z) (ms : list SimpleMessage) (k : nat) s :
  max_histories s = C →
  Z.of_nat (length (messages s)) <= C →
  Z.of_nat (length (messages (add_messages (take k ms) s))) <= C.
Proof.
  intros <- Hinv. by apply add_messages_bounded.
Qed.

Lemma add_message_merged new s pre last_message :
  messages s = pre ++ [last_message] →
  mergeable last_message new = true →
  add_message new s
  = Ok (set_messages (pre ++ [extend_message last_message new]) s).
Proof.
  intros Hm Hmerge. unfold add_message.
  by rewrite (try_merge_snoc _ _ _ _ Hm), Hmerge.
Qed.

Lemma add_message_not_merged new s s' :
  fst (_try_merge_message new s) = false →
  add_message new s = Ok s' →
  ∃ kept, messages s' = kept ++ [new]
          ∧ (kept = messages s ∨ kept = tail (messages s)).
Proof.
  unfold add_message.
  destruct (_try_merge_message new s) as [merged s1]. simpl.
  intros ->. destruct (_ <=? _).
  - destruct (messages s) as [|m ms]; [done|].
    intros [= <-]. exists ms. simpl. auto.
  - intros [= <-]. exists (messages s). simpl. auto.
Qed.

(** C3. On [add_message] the new message is merged iff the list has a
    last entry whose [user_id] equals the new one's and whose time is at
    most 180 seconds away.  A merge replaces the last entry's content by
    the old content followed by the new content and keeps every other
    entry and the length.  A gap of 180 merges and a gap of 181, or a
    different sender, does not; then the new message becomes the last
    entry as it is, after the old list or its tail, so that no entry
    before the last one is merged into, whoever sent it. *)
Theorem merge_rule new s :
  (fst (_try_merge_message new s) = true ↔
     ∃ pre last_message,
       messages s = pre ++ [last_message]
       ∧ user_id last_message = user_id new
       ∧ Z.abs (time last_message - time new) <= 180)
  ∧ (∀ pre last_message,
       messages s = pre ++ [last_message] →
       user_id last_message = user_id new →
       Z.abs (time last_message - time new) <= 180 →
       ∃ s', add_message new s = Ok s'
             ∧ messages s'
               = pre ++ [extend_message last_message new]
             ∧ message (extend_message last_message new)
               = message last_message ++ message new
             ∧ length (messages s') = length (messages s))
  ∧ (∀ pre last_message,
       messages s = pre ++ [last_message] →
       user_id last_message ≠ user_id new
       ∨ 181 <= Z.abs (time last_message - time new) →
       fst (_try_merge_message new s) = false
       ∧ ∀ s', add_message new s = Ok s' →
               ∃ kept, messages s' = kept ++ [new]
                       ∧ (kept = messages s ∨ kept = tail (messages s)))
  ∧ (∀ a : SimpleMessage,
       user_id a = user_id new →
       (time new = time a + 180 → mergeable a new = true)
       ∧ (time new = time a + 181 → mergeable a new = false)).
Proof.
  split; [|split; [|split]].
  - split.
    + destruct (messages s) as [|m ms] eqn:Hm using rev_ind.
      * by rewrite try_merge_nil.
      * rewrite (try_merge_snoc _ _ _ _ Hm).
        destruct (mergeable m new) eqn:Hmerge; [|done].
        intros _. exists ms, m. by apply mergeable_spec in Hmerge.
    + intros (pre & l & Hm & Hid & Ht).
      rewrite (try_merge_snoc _ _ _ _ Hm).
      assert (mergeable l new = true) as -> by by apply mergeable_spec.
      done.
  - intros pre l Hm Hid Ht.
    assert (mergeable l new = true) as Hmerge by by apply mergeable_spec.
    eexists. split; [by apply add_message_merged|].
    simpl. rewrite Hm, !length_app. done.
  - intros pre l Hm Hno.
    assert (fst (_try_merge_message new s) = false) as Hfst.
    { rewrite (try_merge_snoc _ _ _ _ Hm).
      destruct (mergeable l new) eqn:Hmerge; [|done].
      apply mergeable_spec in Hmerge. destruct Hno; [tauto|lia]. }
    split; [done|]. intros s'. by apply add_message_not_merged.
  - intros a Hid. split; intros Ht.
    + apply mergeable_spec. split; [done|]. rewrite Ht. lia.
    + destruct (mergeable a new) eqn:Hmerge; [|done].
      apply mergeable_spec in Hmerge. rewrite Ht in Hmerge. lia.
Qed.

End Store.

Lemma capacity_invariant_witness :
  Z.of_nat (length (messages
     (add_messages (take 3 [text_message 1 0 "a"; text_message 2 0 "b";
                            text_message 3 0 "c"])
        (sample_session 2 [])))) <= 2.
Proof.
  apply (capacity_invariant 2
           [text_message 1 0 "a"; text_message 2 0 "b"; text_message 3 0 "c"]
           3%nat (sample_session 2 [])); [reflexivity | simpl; lia].
Defined.

Lemma merge_rule_witness :
  ∃ s', add_message (text_message 42 280 "b")
          (sample_session 10 [text_message 42 100 "a"]) = Ok s'
        ∧ messages s'
          = [] ++ [extend_message (text_message 42 100 "a")
                     (text_message 42 280 "b")]
        ∧ message (extend_message (text_message 42 100 "a")
                     (text_message 42 280 "b"))
          = message (text_message 42 100 "a")
            ++ message (text_message 42 280 "b")
        ∧ length (messages s')
          = length (messages (sample_session 10 [text_message 42 100 "a"])).
Proof.
  apply (proj1 (proj2 (merge_rule (text_message 42 280 "b")
                         (sample_session 10 [text_message 42 100 "a"])))
           [] (text_message 42 100 "a"));
    [reflexivity | reflexivity | simpl; lia].
Defined.

(** The history window slides: eleven messages that do not merge, into a
    conversation of capacity ten, leave the last ten in order. *)
Example sliding_window :
  let ms := map (λ i, text_message (Z.of_nat i) 0 "m") (seq 1 11) in
  messages (add_messages ms (sample_session 10 [])) = tail ms.
Proof. reflexivity. Qed.

(** * Properties of the registry *)

Section Registry.
Implicit Types (m : SessionManager) (event : MessageEvent).

Lemma get_session_registered event m s :
  sessions m !! event_session_id event = Some s →
  get_session event m = Ok (s, m).
Proof. intros Hs. unfold get_session. by rewrite Hs. Qed.

Lemma get_session_registers event m s m1 :
  get_session event m = Ok (s, m1) →
  sessions m1 !! event_session_id event = Some s.
Proof.
  unfold get_session.
  destruct (sessions m !! event_session_id event) as [s0|] eqn:Hs.
  - by intros [= <- <-].
  - destruct (Session_init _ _ _ _ _) as [s1|]; [|done].
    intros [= <- <-]. simpl. apply lookup_insert_eq.
Qed.

Lemma get_session_fresh event m :
  sessions m !! event_session_id event = None →
  0 < event_session_id event →
  ∃ s m1, get_session event m = Ok (s, m1)
          ∧ session_type s = event_session_type event
          ∧ max_histories s = 10.
Proof.
  intros Hs Hpos. unfold get_session, Session_init. rewrite Hs.
  destruct (Z.leb_spec (event_session_id event) 0); [lia|].
  eexists _, _. split; [done|]. done.
Qed.

(** C9. The registry is keyed by the numeric id alone.  For a group event
    and a private event with the same numeric id [n]: a session stored
    under [n] is what [get_session] returns to both; whichever of the two
    events comes first registers its session and the other event then gets
    that same session, of the other kind; and [delete_session n] removes
    the one entry, after which neither kind finds a session under [n]. *)
Theorem registry_keyed_by_id m (eg ep : MessageEvent) (n : Z) :
  event_kind_of eg = GroupMessageEvent n →
  event_kind_of ep = PrivateMessageEvent →
  event_user_id ep = n →
  (∀ s, sessions m !! n = Some s →
        get_session eg m = Ok (s, m) ∧ get_session ep m = Ok (s, m))
  ∧ (∀ s m1, get_session eg m = Ok (s, m1) →
             get_session ep m1 = Ok (s, m1)
             ∧ (sessions m !! n = None → session_type s = group))
  ∧ (∀ s m1, get_session ep m = Ok (s, m1) →
             get_session eg m1 = Ok (s, m1)
             ∧ (sessions m !! n = None → session_type s = private))
  ∧ sessions (delete_session n m) !! n = None
  ∧ (∀ k, k ≠ n →
          sessions (delete_session n m) !! k = sessions m !! k).
Proof.
  intros Hg Hp Hu.
  assert (event_session_id eg = n) as Hsg
    by (unfold event_session_id; by rewrite Hg).
  assert (event_session_id ep = n) as Hsp
    by (unfold event_session_id; by rewrite Hp).
  assert (∀ e e' k s m1, event_session_id e = n → event_session_id e' = n →
            event_session_type e = k →
            get_session e m = Ok (s, m1) →
            get_session e' m1 = Ok (s, m1)
            ∧ (sessions m !! n = None → session_type s = k)) as Hfirst.
  { intros e e' k s m1 He He' Hk Hget. split.
    - apply get_session_registered. rewrite He', <- He.
      by eapply get_session_registers.
    - intros Hnone. revert Hget. unfold get_session, Session_init.
      rewrite He, Hnone. destruct (n <=? 0); [done|].
      by intros [= <- <-]. }
  split; [|split; [|split; [|split]]].
  - intros s Hs. split; apply get_session_registered; congruence.
  - intros s m1. apply Hfirst; [done..|].
    unfold event_session_type. by rewrite Hg.
  - intros s m1. apply Hfirst; [done..|].
    unfold event_session_type. by rewrite Hp.
  - unfold delete_session.
    destruct (sessions m !! n) eqn:Hs; [apply lookup_delete_eq|done].
  - intros k Hk. unfold delete_session.
    destruct (sessions m !! n) eqn:Hs; [by apply lookup_delete_ne|done].
Qed.

Lemma registry_keyed_by_id_witness :
  ∃ s m1, get_session (group_text true 100 "hi") no_sessions = Ok (s, m1)
          ∧ get_session (private_text 101 "yo") m1 = Ok (s, m1)
          ∧ session_type s = group.
Proof.
  destruct (get_session_fresh (group_text true 100 "hi") no_sessions)
    as (s & m1 & Hget & _); [reflexivity | reflexivity |].
  exists s, m1. split; [exact Hget|].
  destruct (proj1 (proj2 (registry_keyed_by_id no_sessions
                            (group_text true 100 "hi")
                            (private_text 101 "yo") 7
                            eq_refl eq_refl eq_refl)) s m1 Hget)
    as [Hsame Hkind].
  split; [exact Hsame | apply Hkind; reflexivity].
Defined.
End Registry.

(** * Properties of strip and split *)

Section Strings.
Implicit Types (s line part : pystr) (ch : N).

Lemma lstrip_head s ch : head (lstrip s) = Some ch → isspace ch = false.
Proof.
  induction s as [|c s IH]; simpl; [done|].
  destruct (isspace c) eqn:Hc; [done|]. simpl. by intros [= <-].
Qed.

Lemma lstrip_elem s ch : ch ∈ lstrip s → ch ∈ s.
Proof.
  induction s as [|c s IH]; simpl; [done|].
  destruct (isspace c); [|done]. intros Hin. right. by apply IH.
Qed.

Lemma lstrip_fixed s :
  (∀ ch, head s = Some ch → isspace ch = false) → lstrip s = s.
Proof. destruct s as [|c s]; simpl; [done|]. intros H. by rewrite (H c). Qed.

Lemma lstrip_snoc s ch :
  isspace ch = false → ∃ kept, lstrip (s ++ [ch]) = kept ++ [ch].
Proof.
  intros Hch. induction s as [|c s IH]; simpl.
  - rewrite Hch. by exists [].
  - destruct (isspace c); [done|]. by exists (c :: s).
Qed.

Lemma rstrip_last s ch : last (rstrip s) = Some ch → isspace ch = false.
Proof. unfold rstrip. rewrite last_reverse. apply lstrip_head. Qed.

Lemma rstrip_elem s ch : ch ∈ rstrip s → ch ∈ s.
Proof.
  unfold rstrip. rewrite elem_of_reverse. intros Hin%lstrip_elem.
  by apply elem_of_reverse.
Qed.

Lemma rstrip_fixed s :
  (∀ ch, last s = Some ch → isspace ch = false) → rstrip s = s.
Proof.
  intros H. unfold rstrip. rewrite lstrip_fixed; [apply reverse_involutive|].
  intros ch. rewrite head_reverse. apply H.
Qed.

Lemma rstrip_head s ch :
  head s = Some ch → isspace ch = false → head (rstrip s) = Some ch.
Proof.
  destruct s as [|c s]; [done|]. simpl. intros [= ->] Hch.
  unfold rstrip. rewrite reverse_cons.
  destruct (lstrip_snoc (reverse s) ch Hch) as [kept ->].
  by rewrite reverse_snoc.
Qed.

Lemma strip_head s ch : head (strip s) = Some ch → isspace ch = false.
Proof.
  unfold strip. destruct (lstrip s) as [|c r] eqn:Hl.
  - by unfold rstrip.
  - assert (isspace c = false) as Hc by (apply (lstrip_head s); by rewrite Hl).
    rewrite (rstrip_head (c :: r) c eq_refl Hc). by intros [= <-].
Qed.

Lemma strip_last s ch : last (strip s) = Some ch → isspace ch = false.
Proof. apply rstrip_last. Qed.

Lemma strip_idempotent s : strip (strip s) = strip s.
Proof.
  unfold strip at 1.
  rewrite (lstrip_fixed (strip s)) by apply strip_head.
  apply rstrip_fixed, strip_last.
Qed.

Lemma strip_elem s ch : ch ∈ strip s → ch ∈ s.
Proof. unfold strip. intros Hin%rstrip_elem. by apply lstrip_elem. Qed.

Lemma split_no_separator (sep : N) s line :
  line ∈ split sep s → sep ∉ line.
Proof.
  revert line. induction s as [|c s IH]; intros line; simpl.
  - intros ->%list_elem_of_singleton. apply not_elem_of_nil.
  - destruct (N.eqb_spec c sep) as [->|Hne].
    + intros [->|Hin]%elem_of_cons; [apply not_elem_of_nil|by apply IH].
    + destruct (split sep s) as [|l ls] eqn:Hsplit.
      * intros ->%list_elem_of_singleton.
        intros [Heq|Hin]%elem_of_cons; [done|by apply not_elem_of_nil in Hin].
      * intros [->|Hin]%elem_of_cons.
        -- intros [Heq|Hin]%elem_of_cons; [done|].
           by apply (IH l); [left|].
        -- apply IH. by right.
Qed.

Lemma lstrip_nil s : lstrip s = [] ↔ forallb isspace s = true.
Proof.
  induction s as [|c s IH]; simpl; [done|].
  destruct (isspace c); simpl; [done|]. by split.
Qed.

(** A line is emptied by [strip] iff it holds white space only. *)
Lemma strip_nil_iff line : strip line = [] ↔ forallb isspace line = true.
Proof.
  rewrite <- lstrip_nil. unfold strip. split.
  - destruct (lstrip line) as [|c r] eqn:Hl; [done|].
    assert (isspace c = false) as Hc
      by (apply (lstrip_head line); by rewrite Hl).
    intros Hnil.
    pose proof (rstrip_head (c :: r) c eq_refl Hc) as Hhead.
    by rewrite Hnil in Hhead.
  - by intros ->.
Qed.

Lemma nonempty_strip line :
  nonempty (strip line) = negb (forallb isspace line).
Proof.
  destruct (forallb isspace line) eqn:Hspace; simpl.
  - apply strip_nil_iff in Hspace. by rewrite Hspace.
  - destruct (strip line) eqn:Hstrip; [|done].
    apply strip_nil_iff in Hstrip. congruence.
Qed.

(** The stripped lines that are kept, read off the lines themselves. *)
Lemma stripped_lines (lines : list pystr) :
  map strip (List.filter (λ line, nonempty (strip line)) lines)
  = omap (λ line, if forallb isspace line then None else Some (strip line))
      lines.
Proof.
  induction lines as [|line lines IH]; simpl; [done|].
  rewrite nonempty_strip. destruct (forallb isspace line); simpl; [done|].
  by rewrite IH.
Qed.
End Strings.

(** * Properties of the scheduler *)

Section Scheduler.
Implicit Types (w : World) (tid : nat) (sig : signal) (now : Q).

Lemma delayed_llm_query_frame now tid t sig w s w1 :
  delayed_llm_query now tid t sig w = Some (s, w1) →
  tasks w1 = tasks w ∧ config w1 = config w ∧ clock w1 = clock w.
Proof.
  unfold delayed_llm_query. intros H.
  repeat case_match; simplify_eq; done.
Qed.

Lemma step_inbound w now event w' :
  step w (Inbound now event) = Some w' →
  w' = handle_all_message now event (set_clock now w).
Proof. unfold step. simpl. case_match; congruence. Qed.

Lemma step_resume w now tid sig w' :
  step w (Resume now tid sig) = Some w' →
  ∃ t s w1, tasks w !! tid = Some t
            ∧ Qle_bool (clock w) now = true
            ∧ delayed_llm_query now tid t sig (set_clock now w) = Some (s, w1)
            ∧ w' = set_stage tid s w1.
Proof.
  unfold step. simpl.
  destruct (Qle_bool _ _); [|done].
  destruct (tasks w !! tid) as [t|]; [|done].
  destruct (delayed_llm_query _ _ _ _ _) as [[s w1]|] eqn:Hq; [|done].
  intros [= <-]. by exists t, s, w1.
Qed.

Lemma handle_all_message_pending now event w :
  pending_sessions (session_state (handle_all_message now event w))
  = pending_sessions (session_state w).
Proof.
  unfold handle_all_message. repeat case_match; done.
Qed.

Lemma handle_all_message_tasks now event w :
  ∃ new, tasks (handle_all_message now event w) = tasks w ++ new.
Proof.
  unfold handle_all_message.
  repeat case_match; simpl; eauto using app_nil_r.
  all: exists []; by rewrite app_nil_r.
Qed.

Lemma stage_of_set_stage w tid tid' s :
  stage_of (set_stage tid s w) tid'
  = if decide (tid = tid')
    then (λ _, s) <$> stage_of w tid'
    else stage_of w tid'.
Proof.
  unfold stage_of, set_stage. simpl. case_decide as Htid.
  - subst. rewrite list_lookup_alter_eq. by destruct (tasks w !! tid').
  - by rewrite list_lookup_alter_ne.
Qed.

Lemma read_time_pending sid (st : SessionState) :
  pending_sessions (snd (read_time sid st)) = pending_sessions st.
Proof. unfold read_time. by case_match. Qed.

(** What one resumption does to the pending set, by the stage it starts
    from and the stage it reaches. *)
Lemma delayed_llm_query_pending now tid t sig w s w1 :
  delayed_llm_query now tid t sig w = Some (s, w1) →
  let sid := task_session_id t in
  let before := pending_sessions (session_state w) in
  let after := pending_sessions (session_state w1) in
  (in_flight (task_stage t) = true ∧ s = Exited ∧ after = before ∖ {[sid]})
  ∨ (task_stage t = Created ∧ s = Exited ∧ after = before)
  ∨ (task_stage t = Created ∧ in_flight s = true ∧ after = {[sid]} ∪ before)
  ∨ (in_flight (task_stage t) = true ∧ in_flight s = true ∧ after = before).
Proof.
  unfold delayed_llm_query. intros H. cbv zeta.
  pose proof (read_time_pending (task_session_id t) (session_state w)) as Hp.
  destruct (read_time (task_session_id t) (session_state w)) as [last_time st].
  simpl in Hp.
  destruct (task_stage t) as [|wake| |parts rest|wake parts msg rest|], sig;
    try discriminate H.
  all: repeat match type of H with
       | context [if ?b then _ else _] => destruct b
       | context [match ?l with [] => _ | _ => _ end] => destruct l
       end; try discriminate H.
  all: injection H as <- <-.
  all: unfold finally, send, set_manager, set_session_state, remove_pending,
         update_time, add_pending; cbn [session_state pending_sessions in_flight].
  all: try rewrite Hp.
  all: first [ left; done | right; left; done | right; right; left; done
             | right; right; right; done ].
Qed.

Lemma tasks_set_stage_eq w tid t s :
  tasks w !! tid = Some t →
  tasks (set_stage tid s w) !! tid
  = Some {| task_event := task_event t; task_stage := s |}.
Proof.
  intros Ht. unfold set_stage. simpl. by rewrite list_lookup_alter_eq, Ht.
Qed.

Lemma tasks_set_stage_ne w tid tid' s :
  tid ≠ tid' → tasks (set_stage tid s w) !! tid' = tasks w !! tid'.
Proof. intros Hne. unfold set_stage. simpl. by rewrite list_lookup_alter_ne. Qed.

Lemma step_pending_covered w l w' :
  pending_covered w → step w l = Some w' → pending_covered w'.
Proof.
  intros Hinv Hstep. destruct l as [now event|now tid sig].
  - apply step_inbound in Hstep as ->. intros sid.
    rewrite handle_all_message_pending. intros Hin.
    destruct (Hinv sid Hin) as (tid & t & Ht & Hsid & Hfl).
    destruct (handle_all_message_tasks now event (set_clock now w)) as [new ->].
    exists tid, t. split; [|done]. by apply lookup_app_l_Some.
  - apply step_resume in Hstep as (t & s & w1 & Ht & _ & Hq & ->).
    pose proof (delayed_llm_query_frame _ _ _ _ _ _ _ Hq) as (Htasks & _ & _).
    pose proof (delayed_llm_query_pending _ _ _ _ _ _ _ Hq) as Hpend.
    simpl in Hpend, Htasks.
    assert (tasks w1 !! tid = Some t) as Ht1 by by rewrite Htasks.
    assert (∀ tid' t', tid' ≠ tid → tasks w !! tid' = Some t' →
              tasks (set_stage tid s w1) !! tid' = Some t') as Hother.
    { intros tid' t' Hne Ht'. rewrite tasks_set_stage_ne by done.
      by rewrite Htasks. }
    intros sid Hin. simpl in Hin.
    destruct Hpend as [(Hfl & -> & Hp)|[(Hc & -> & Hp)|[(Hc & Hfl & Hp)
                      |(Hfl & Hfl' & Hp)]]]; rewrite Hp in Hin.
    + apply elem_of_difference in Hin as [Hin Hne].
      destruct (Hinv sid Hin) as (tid' & t' & Ht' & Hsid & Hfl').
      exists tid', t'. split; [|done]. apply Hother; [|done].
      intros ->. rewrite Ht in Ht'. simplify_eq. set_solver.
    + destruct (Hinv sid Hin) as (tid' & t' & Ht' & Hsid & Hfl').
      exists tid', t'. split; [|done]. apply Hother; [|done].
      intros ->. rewrite Ht in Ht'. simplify_eq. by rewrite Hc in Hfl'.
    + apply elem_of_union in Hin as [Hin|Hin].
      * apply elem_of_singleton in Hin as ->.
        eexists tid, _. split; [by apply tasks_set_stage_eq|]. done.
      * destruct (Hinv sid Hin) as (tid' & t' & Ht' & Hsid & Hfl').
        exists tid', t'. split; [|done]. apply Hother; [|done].
        intros ->. rewrite Ht in Ht'. simplify_eq. by rewrite Hc in Hfl'.
    + destruct (Hinv sid Hin) as (tid' & t' & Ht' & Hsid & Hfl'').
      destruct (decide (tid' = tid)) as [->|Hne].
      * rewrite Ht in Ht'. simplify_eq.
        eexists tid, _. split; [by apply tasks_set_stage_eq|]. done.
      * exists tid', t'. split; [|done]. by apply Hother.
Qed.

Lemma run_pending_covered tr w w' :
  pending_covered w → run w tr = Some w' → pending_covered w'.
Proof.
  revert w. induction tr as [|l tr IH]; intros w Hinv; simpl.
  - by intros [= <-].
  - destruct (step w l) as [w1|] eqn:Hstep; [|done].
    apply IH. by eapply step_pending_covered.
Qed.

Lemma start_world_pending_covered cfg m : pending_covered (start_world cfg m).
Proof. intros sid Hin. simpl in Hin. set_solver. Qed.

(** C5. Every exit of a cycle clears the pending flag of its
    conversation: whatever step takes a cycle in flight (debouncing,
    querying, sending or pacing) to its exit — the last part delivered, an
    empty or failed query, an exception of the send, a cancellation —
    leaves the conversation outside [pending_sessions].  Hence, in every
    state the process reaches, a conversation none of whose cycles is in
    flight is not pending. *)
Theorem pending_cleared_on_exit :
  (∀ w l w' tid t,
     step w l = Some w' →
     tasks w !! tid = Some t →
     in_flight (task_stage t) = true →
     stage_of w' tid = Some Exited →
     task_session_id t ∉ pending_sessions (session_state w'))
  ∧ (∀ cfg m tr w sid,
       run (start_world cfg m) tr = Some w →
       at_rest sid w →
       sid ∉ pending_sessions (session_state w)).
Proof.
  split.
  - intros w l w' tid t Hstep Ht Hfl Hexit.
    destruct l as [now event|now tid' sig].
    + apply step_inbound in Hstep as ->. exfalso.
      destruct (handle_all_message_tasks now event (set_clock now w)) as [new Hnew].
      unfold stage_of in Hexit. rewrite Hnew in Hexit.
      rewrite (lookup_app_l_Some _ _ _ _ Ht) in Hexit. simpl in Hexit.
      simplify_eq. by rewrite Hexit in Hfl.
    + apply step_resume in Hstep as (t' & s & w1 & Ht' & _ & Hq & ->).
      pose proof (delayed_llm_query_frame _ _ _ _ _ _ _ Hq) as (Htasks & _ & _).
      pose proof (delayed_llm_query_pending _ _ _ _ _ _ _ Hq) as Hpend.
      simpl in Hpend, Htasks.
      rewrite stage_of_set_stage in Hexit. unfold stage_of in Hexit.
      rewrite Htasks in Hexit. case_decide as Htid.
      * subst tid'. assert (t' = t) as -> by congruence.
        rewrite Ht in Hexit. simpl in Hexit. injection Hexit as ->.
        destruct Hpend as [(_ & _ & Hp)|[(Hc & _)|[(Hc & _)|(_ & Hfl' & _)]]].
        -- simpl. rewrite Hp.
           intros [_ Hne]%elem_of_difference. by apply Hne, elem_of_singleton.
        -- by rewrite Hc in Hfl.
        -- by rewrite Hc in Hfl.
        -- done.
      * rewrite Ht in Hexit. simpl in Hexit. simplify_eq.
        by rewrite Hexit in Hfl.
  - intros cfg m tr w sid Hrun Hrest Hin.
    pose proof (run_pending_covered _ _ _
                  (start_world_pending_covered cfg m) Hrun) as Hinv.
    destruct (Hinv sid Hin) as (tid & t & Ht & Hsid & Hfl).
    by rewrite (Hrest tid t Ht Hsid) in Hfl.
Qed.

Lemma pending_cleared_on_exit_witness :
  is_pending 7 (session_state debouncing_world) = true
  ∧ 7 ∉ pending_sessions (session_state cancelled_world).
Proof.
  split; [vm_compute; reflexivity|].
  apply (proj1 pending_cleared_on_exit debouncing_world
           (Resume 1 0%nat Cancelled) cancelled_world 0%nat
           {| task_event := mention 100; task_stage := Debouncing 5 |});
    vm_compute; reflexivity.
Defined.

(** ** Debounce timing *)

Lemma handle_all_message_state now event w :
  let h := handle_all_message now event w in
  clock h = clock w ∧ config h = config w
  ∧ (session_state h = session_state w
     ∨ session_state h
       = update_time now (event_session_id event) (session_state w))
  ∧ (tasks h = tasks w
     ∨ tasks h = tasks w ++ [{| task_event := event; task_stage := Created |}]).
Proof. unfold handle_all_message. repeat case_match; simpl; auto. Qed.

(** What one resumption does to the recorded times and which stage it
    reaches. *)
Lemma delayed_llm_query_time now tid t sig w s w1 :
  delayed_llm_query now tid t sig w = Some (s, w1) →
  let sid := task_session_id t in
  let before := last_message_time (session_state w) in
  let after := last_message_time (session_state w1) in
  (task_stage t = Created ∧ sig = Begin ∧ s = Debouncing (now + 5)
   ∧ after = <[sid := now]> before)
  ∨ (∃ wake, task_stage t = Debouncing wake ∧ sig = Timer
             ∧ Qle_bool wake now = true
             ∧ after = last_message_time
                         (snd (read_time sid (session_state w)))
             ∧ s = if Qle_bool 3 (now - fst (read_time sid (session_state w)))
                   then Querying else Debouncing (now + 5))
  ∨ ((∀ wake, s ≠ Debouncing wake) ∧ after = before
     ∧ ∀ wake, task_stage t = Debouncing wake → sig ≠ Timer).
Proof.
  unfold delayed_llm_query. intros H. cbv zeta.
  destruct (read_time (task_session_id t) (session_state w))
    as [last_time st] eqn:Hread.
  destruct (task_stage t) as [|wake| |parts rest|wake parts msg rest|], sig;
    try discriminate H.
  all: repeat match type of H with
       | context [if ?b then _ else _] => destruct b eqn:?
       | context [match ?l with [] => _ | _ => _ end] => destruct l
       end; try discriminate H.
  all: injection H as <- <-.
  all: unfold finally, send, set_manager, set_session_state, remove_pending,
         update_time, add_pending;
       cbn [session_state last_message_time fst snd].
  all: first [ left; done
             | right; left; eexists; repeat split; try done;
               match goal with Hb : Qle_bool 3 _ = _ |- _ => by rewrite Hb end
             | right; right; repeat split; done ].
Qed.

Lemma read_time_known sid (st : SessionState) t :
  last_message_time st !! sid = Some t → read_time sid st = (t, st).
Proof. intros Ht. unfold read_time. by rewrite Ht. Qed.

Lemma step_debounce_bound w l w' :
  debounce_bound w → step w l = Some w' → debounce_bound w'.
Proof.
  intros [Hpast Hwake] Hstep. destruct l as [now event|now tid sig].
  - assert (Qle_bool (clock w) now = true) as Hclock.
    { revert Hstep. unfold step. simpl. by case_match. }
    apply Qle_bool_iff in Hclock.
    apply step_inbound in Hstep as ->.
    destruct (handle_all_message_state now event (set_clock now w))
      as (Hc & _ & Hst & Hts).
    cbv zeta in *. simpl in Hc, Hst, Hts.
    assert (∀ sid t,
              last_message_time
                (session_state (handle_all_message now event (set_clock now w)))
                !! sid = Some t →
              t = now
              ∨ last_message_time (session_state w) !! sid = Some t) as Hcase.
    { intros sid t. destruct Hst as [-> | ->]; simpl; [auto|].
      destruct (decide (event_session_id event = sid)) as [<-|Hne].
      - rewrite lookup_insert_eq. intros [= <-]. auto.
      - rewrite lookup_insert_ne by done. auto. }
    split.
    + intros sid t Ht. rewrite Hc.
      destruct (Hcase sid t Ht) as [->|Hold]; [apply Qle_refl|].
      specialize (Hpast sid t Hold). lra.
    + intros tid task wake Htask Hstage.
      assert (tasks w !! tid = Some task) as Hold.
      { destruct Hts as [Hts|Hts]; rewrite Hts in Htask; [done|].
        apply lookup_app_Some in Htask as [Htask|[_ Htask]]; [done|].
        apply list_lookup_singleton_Some in Htask as [_ <-]. done. }
      destruct (Hwake tid task wake Hold Hstage) as (t0 & Ht0 & Hlt).
      destruct Hst as [-> | ->]; simpl; [eauto|].
      destruct (decide (event_session_id event = task_session_id task))
        as [Heq|Hne].
      * rewrite Heq, lookup_insert_eq. eexists. split; [done|].
        specialize (Hpast _ _ Ht0). lra.
      * rewrite lookup_insert_ne by done. eauto.
  - apply step_resume in Hstep as (t & s & w1 & Ht & Hclock & Hq & ->).
    apply Qle_bool_iff in Hclock.
    pose proof (delayed_llm_query_frame _ _ _ _ _ _ _ Hq) as (Htasks & _ & Hc).
    pose proof (delayed_llm_query_time _ _ _ _ _ _ _ Hq) as Htime.
    cbv zeta in Htime. simpl in Htasks, Hc, Htime.
    assert (∀ sid t0,
              last_message_time (session_state w1) !! sid = Some t0 →
              t0 = now ∨ last_message_time (session_state w) !! sid = Some t0)
      as Hcase.
    { intros sid t0.
      destruct Htime as [(_ & _ & _ & ->)|[(wake & Hst & _ & _ & -> & _)
                        |(_ & -> & _)]]; [| |auto].
      - destruct (decide (task_session_id t = sid)) as [<-|Hne].
        + rewrite lookup_insert_eq. intros [= <-]. auto.
        + rewrite lookup_insert_ne by done. auto.
      - destruct (Hwake tid t wake Ht Hst) as (t1 & Ht1 & _).
        rewrite (read_time_known _ _ _ Ht1). simpl. auto. }
    split.
    + intros sid t0 Ht0. simpl in Ht0 |- *. rewrite Hc. simpl.
      destruct (Hcase sid t0 Ht0) as [->|Hold]; [apply Qle_refl|].
      specialize (Hpast sid t0 Hold). lra.
    + intros tid' task wake Htask Hstage. simpl.
      destruct (decide (tid = tid')) as [<-|Hne].
      * rewrite (tasks_set_stage_eq w1 tid t s) in Htask by by rewrite Htasks.
        injection Htask as <-. simpl in Hstage |- *.
        unfold task_session_id. simpl. fold (task_session_id t).
        destruct Htime as [(_ & _ & Hs & ->)|[(wake0 & Hst & _ & _ & Hafter & Hs)
                          |(Hs & _)]].
        -- rewrite lookup_insert_eq. eexists. split; [done|].
           rewrite Hstage in Hs. injection Hs as ->. lra.
        -- destruct (Hwake tid t wake0 Ht Hst) as (t1 & Ht1 & _).
           rewrite (read_time_known _ _ _ Ht1) in Hafter, Hs. simpl in *.
           rewrite Hafter. exists t1. split; [done|].
           destruct (Qle_bool 3 (now - t1)) eqn:Hcheck;
             rewrite Hstage in Hs; [done|].
           injection Hs as ->.
           assert (¬ (3 <= now - t1)%Q) as Hno.
           { intros Hle. apply Qle_bool_iff in Hle. congruence. }
           lra.
        -- by destruct (Hs wake).
      * rewrite tasks_set_stage_ne in Htask by done.
        rewrite Htasks in Htask.
        destruct (Hwake tid' task wake Htask Hstage) as (t0 & Ht0 & Hlt).
        assert (∃ t1, last_message_time (session_state w1)
                        !! task_session_id task = Some t1
                      ∧ (t1 = now ∨ t1 = t0)) as (t1 & Ht1 & Hor).
        { destruct Htime as [(_ & _ & _ & ->)|[(wake0 & Hst & _ & _ & -> & _)
                            |(_ & -> & _)]]; [| |eauto].
          - destruct (decide (task_session_id t = task_session_id task))
              as [<-|Hne'].
            + rewrite lookup_insert_eq. eauto.
            + rewrite lookup_insert_ne by done. eauto.
          - destruct (Hwake tid t wake0 Ht Hst) as (t2 & Ht2 & _).
            rewrite (read_time_known _ _ _ Ht2). simpl. eauto. }
        exists t1. split; [done|].
        destruct Hor as [-> | ->]; [|done].
        specialize (Hpast _ _ Ht0). lra.
Qed.

Lemma run_debounce_bound tr w w' :
  debounce_bound w → run w tr = Some w' → debounce_bound w'.
Proof.
  revert w. induction tr as [|l tr IH]; intros w Hinv; simpl.
  - by intros [= <-].
  - destruct (step w l) as [w1|] eqn:Hstep; [|done].
    apply IH. by eapply step_debounce_bound.
Qed.

Lemma start_world_debounce_bound cfg m : debounce_bound (start_world cfg m).
Proof. split; [intros sid t|intros tid task wake]; simpl; done. Qed.

(** C4, as amended.  With the quiet threshold of 3 seconds and the poll
    sleep of 5: whenever a debouncing cycle fires, at loop time [now], its
    conversation has a recorded activity time [t] with [3 <= now - t], and
    the sleep it wakes from was due less than [3 + 5] seconds after [t], so
    that [now - t] lies in [[3, 8)] when the timer is punctual.  The
    recorded time is that of the last access-admitted message of the
    conversation, qualifying or not, or of the cycle's own start.  A
    mention at 0 with nothing after it fires at 5; a further mention at 4
    makes the check at 5 fail and the cycle fire at 10. *)
Theorem debounce_latency :
  (∀ cfg m tr w now tid task wake w',
     run (start_world cfg m) tr = Some w →
     tasks w !! tid = Some task →
     task_stage task = Debouncing wake →
     step w (Resume now tid Timer) = Some w' →
     stage_of w' tid = Some Querying →
     ∃ t : Q,
       last_message_time (session_state w) !! task_session_id task = Some t
       ∧ (3 <= now - t)%Q
       ∧ (wake - t < 3 + 5)%Q
       ∧ (now == wake → now - t < 3 + 5)%Q)
  ∧ (stage_after fresh_world
       [Inbound 0 (mention 100); Resume 0 0%nat Begin] 0
     = Some (Debouncing 5)
     ∧ stage_after fresh_world
         [Inbound 0 (mention 100); Resume 0 0%nat Begin;
          Resume 5 0%nat Timer] 0
       = Some Querying)
  ∧ (stage_after fresh_world
       [Inbound 0 (mention 100); Resume 0 0%nat Begin;
        Inbound 4 (mention 104); Resume 5 0%nat Timer] 0
     = Some (Debouncing 10)
     ∧ stage_after fresh_world
         [Inbound 0 (mention 100); Resume 0 0%nat Begin;
          Inbound 4 (mention 104); Resume 5 0%nat Timer;
          Resume 10 0%nat Timer] 0
       = Some Querying).
Proof.
  split; [|by_evaluation].
  intros cfg m tr w now tid task wake w' Hrun Htask Hstage Hstep Hfire.
  pose proof (run_debounce_bound _ _ _
                (start_world_debounce_bound cfg m) Hrun) as [_ Hwake].
  destruct (Hwake tid task wake Htask Hstage) as (t & Ht & Hlt).
  exists t. split; [done|].
  apply step_resume in Hstep as (task' & s & w1 & Htask' & _ & Hq & ->).
  assert (task' = task) as -> by congruence.
  pose proof (delayed_llm_query_frame _ _ _ _ _ _ _ Hq) as (Htasks & _ & _).
  pose proof (delayed_llm_query_time _ _ _ _ _ _ _ Hq) as Htime.
  cbv zeta in Htime. simpl in Htasks, Htime.
  rewrite stage_of_set_stage, decide_True in Hfire by done.
  unfold stage_of in Hfire. rewrite Htasks, Htask in Hfire.
  injection Hfire as ->.
  assert (3 <= now - t)%Q as Hquiet.
  { destruct Htime as [(Hc & _)|[(wake0 & _ & _ & _ & _ & Hs)|(_ & _ & Hno)]].
    - congruence.
    - rewrite (read_time_known _ _ _ Ht) in Hs. simpl in Hs.
      destruct (Qle_bool 3 (now - t)) eqn:Hcheck; [|done].
      by apply Qle_bool_iff.
    - by destruct (Hno wake Hstage). }
  split; [done|]. split; [done|]. intros Heq. lra.
Qed.

Lemma debounce_latency_witness :
  ∃ t : Q,
    last_message_time (session_state quiet_world) !! 7 = Some t
    ∧ (3 <= 10 - t)%Q ∧ (10 - t < 3 + 5)%Q.
Proof.
  destruct (proj1 debounce_latency open_config no_sessions
              [Inbound 0 (mention 100); Resume 0 0%nat Begin;
               Inbound 4 (mention 104); Resume 5 0%nat Timer]
              quiet_world 10%Q 0%nat
              {| task_event := mention 100; task_stage := Debouncing 10 |}
              10%Q
              (default quiet_world (step quiet_world (Resume 10 0%nat Timer))))
    as (t & Ht & Hlo & _ & Hhi);
    [vm_compute; reflexivity ..|].
  exists t. split; [exact Ht|]. split; [exact Hlo|].
  apply Hhi. reflexivity.
Defined.

(** The claim as it is worded measures from the last qualifying
    activity.  A mention at 0 followed at 4 by an admitted message that
    does not mention the bot: the check at 5 fails, the cycle fires at 10,
    and the last qualifying activity is the one at 0, ten seconds
    before. *)
Lemma latency_from_qualifying_counterexample :
  let tr := [Inbound 0 (mention 100); Resume 0 0%nat Begin;
             Inbound 4 (chatter 104); Resume 5 0%nat Timer] in
  check_mention open_config (chatter 104) = false
  ∧ stage_after fresh_world tr 0 = Some (Debouncing 10)
  ∧ stage_after fresh_world (tr ++ [Resume 10 0%nat Timer]) 0 = Some Querying
  ∧ last_qualifying open_config 7 (tr ++ [Resume 10 0%nat Timer])
    = Some 0%Q
  ∧ ¬ (10 - 0 < 3 + 5)%Q.
Proof.
  cbv zeta. split_conj; try (vm_compute; reflexivity).
  intros H. vm_compute in H. discriminate H.
Qed.

(** ** Every admitted message counts as activity *)

Lemma add_message_ok (new : SimpleMessage) (s : Session) :
  0 < max_histories s → ∃ s', add_message new s = Ok s'.
Proof.
  intros Hpos. unfold add_message.
  destruct (_try_merge_message new s) as [[] s1]; [eauto|].
  destruct (Z.leb_spec (max_histories s) (Z.of_nat (length (messages s))));
    [|eauto].
  destruct (messages s); [simpl in *; lia|eauto].
Qed.

Lemma handle_all_message_admitted now event w :
  check_access (config w) event = true →
  0 < event_session_id event →
  (∀ s, sessions (manager w) !! event_session_id event = Some s →
        0 < max_histories s) →
  session_state (handle_all_message now event w)
  = update_time now (event_session_id event) (session_state w).
Proof.
  intros Hacc Hid Hcap. unfold handle_all_message, get_session.
  rewrite Hacc. simpl.
  destruct (sessions (manager w) !! event_session_id event) as [s|] eqn:Hs.
  - unfold store_message. rewrite Hs.
    destruct (add_message_ok (SimpleMessage_of_event event) s (Hcap s eq_refl))
      as [s' ->].
    simpl. by case_match.
  - unfold Session_init.
    destruct (Z.leb_spec (event_session_id event) 0); [lia|].
    unfold store_message. simpl. rewrite lookup_insert_eq.
    match goal with
    | |- context [add_message ?msg ?s0] =>
        destruct (add_message_ok msg s0) as [s' ->]; [simpl; lia|]
    end.
    simpl. by case_match.
Qed.

(** C10. Every access-admitted message, whether or not it mentions the
    bot, sets the last-activity time of its conversation to the time the
    handler runs (conversation id and capacity positive, as the data model
    has them).  A cycle of that conversation that is debouncing keeps
    sleeping, and a check that comes less than 3 seconds after the message
    fails and puts the cycle to sleep for 5 more seconds: the message
    postpones the firing. *)
Theorem admitted_message_updates_time w now event :
  check_access (config w) event = true →
  0 < event_session_id event →
  (∀ s, sessions (manager w) !! event_session_id event = Some s →
        0 < max_histories s) →
  let w' := handle_all_message now event w in
  last_message_time (session_state w') !! event_session_id event = Some now
  ∧ ∀ tid task wake,
      tasks w !! tid = Some task →
      task_session_id task = event_session_id event →
      task_stage task = Debouncing wake →
      stage_of w' tid = Some (Debouncing wake)
      ∧ ∀ (check : Q) w'',
          (check - now < 3)%Q →
          step w' (Resume check tid Timer) = Some w'' →
          stage_of w'' tid = Some (Debouncing (check + 5)).
Proof.
  intros Hacc Hid Hcap w'.
  pose proof (handle_all_message_admitted now event w Hacc Hid Hcap) as Hst.
  fold w' in Hst.
  split; [rewrite Hst; simpl; apply lookup_insert_eq|].
  intros tid task wake Htask Hsid Hstage.
  assert (tasks w' !! tid = Some task) as Htask'.
  { destruct (handle_all_message_tasks now event w) as [new Hnew].
    unfold w'. rewrite Hnew. by apply lookup_app_l_Some. }
  split; [unfold stage_of; by rewrite Htask', <- Hstage|].
  intros check w'' Hsoon Hstep.
  apply step_resume in Hstep as (task0 & s & w1 & Htask0 & _ & Hq & ->).
  assert (task0 = task) as -> by congruence.
  pose proof (delayed_llm_query_frame _ _ _ _ _ _ _ Hq) as (Htasks & _ & _).
  pose proof (delayed_llm_query_time _ _ _ _ _ _ _ Hq) as Htime.
  cbv zeta in Htime. simpl in Htasks, Htime.
  rewrite stage_of_set_stage, decide_True by done.
  unfold stage_of. rewrite Htasks, Htask'. simpl. f_equal.
  destruct Htime as [(Hc & _)|[(wake0 & _ & _ & _ & _ & Hs)|(_ & _ & Hno)]].
  - congruence.
  - rewrite (read_time_known _ _ now) in Hs.
    + simpl in Hs. destruct (Qle_bool 3 (check - now)) eqn:Hcheck; [|done].
      apply Qle_bool_iff in Hcheck. lra.
    + rewrite Hst, Hsid. simpl. apply lookup_insert_eq.
  - by destruct (Hno wake Hstage).
Qed.

Lemma admitted_message_updates_time_witness :
  last_message_time
    (session_state (handle_all_message 4 (chatter 104) debouncing_world))
    !! 7 = Some 4%Q
  ∧ stage_of (handle_all_message 4 (chatter 104) debouncing_world) 0
    = Some (Debouncing 5).
Proof.
  destruct (admitted_message_updates_time debouncing_world 4 (chatter 104))
    as [Htime Hpost].
  - reflexivity.
  - reflexivity.
  - intros s Hs. vm_compute in Hs. injection Hs as <-. reflexivity.
  - split; [exact Htime|].
    apply (Hpost 0%nat {| task_event := mention 100;
                          task_stage := Debouncing 5 |} 5%Q);
      vm_compute; reflexivity.
Defined.

(** ** Admission *)

(** The gate of [handle_all_message]: no task is created for a
    conversation that is marked pending. *)
Lemma admission_gate now event w :
  event_session_id event ∈ pending_sessions (session_state w) →
  tasks (handle_all_message now event w) = tasks w.
Proof.
  intros Hin. unfold handle_all_message.
  repeat case_match; simpl in *; try done.
  exfalso.
  match goal with
  | H : _ && _ = true |- _ =>
      apply andb_true_iff in H as [_ Hnot]
  end.
  apply negb_true_iff, bool_decide_eq_false in Hnot. by apply Hnot.
Qed.

(** C1, what the code does.  The mark is set by the first step of the
    created task, not by the handler that creates it: two mentions of one
    conversation whose handlers both run before the first task starts
    create two tasks, and both are then in flight for conversation 7. *)
Theorem second_cycle_admitted :
  (λ w, map task_session_id (tasks w)) <$> run fresh_world burst
  = Some [7; 7]
  ∧ (λ w, map task_stage (tasks w)) <$> run fresh_world burst
    = Some [Debouncing (501 # 100); Debouncing (501 # 100)]
  ∧ (λ w, map (λ t, in_flight (task_stage t)) (tasks w))
      <$> run fresh_world burst
    = Some [true; true]
  ∧ (λ w, map task_stage (tasks w))
      <$> run fresh_world [Inbound 0 (mention 100)]
    = Some [Created].
Proof. by_evaluation. Qed.

(** ** Execution and delivery *)

Lemma nonempty_false (s : pystr) : nonempty s = false ↔ s = [].
Proof. by destruct s. Qed.

Lemma no_parts_iff_blank (lines : list pystr) :
  map strip (List.filter (λ line, nonempty (strip line)) lines) = []
  ↔ Forall blank lines.
Proof.
  induction lines as [|line lines IH]; simpl; [by split|].
  destruct (nonempty (strip line)) eqn:Hline; simpl.
  - split; [done|]. intros [Hblank _]%Forall_cons.
    unfold blank in Hblank. by rewrite Hblank in Hline.
  - rewrite IH. apply nonempty_false in Hline.
    split; [by constructor|]. by intros [_ ?]%Forall_cons.
Qed.

Lemma handle_llm_query_failed c : failed c ↔ handle_llm_query c = [].
Proof.
  unfold failed, handle_llm_query.
  destruct c as [|[response|]]; [by split; auto| |by split; auto].
  destruct response as [|ch response]; simpl nonempty; cbv iota.
  - split; [done|]. intros _. right. right. eexists. split; [done|].
    by repeat constructor.
  - rewrite no_parts_iff_blank. split.
    + intros [?|[?|(r & [= <-] & Hblank)]]; done.
    + intros Hblank. right. right. eauto.
Qed.

Lemma handle_llm_query_parts c : Forall (λ part, part ≠ []) (handle_llm_query c).
Proof.
  unfold handle_llm_query.
  destruct c as [|[response|]]; [done| |done].
  destruct (nonempty response); [|done].
  apply Forall_fmap, Forall_forall. intros line Hin.
  apply list_elem_of_In, filter_In in Hin as [_ Hne]. simpl.
  by destruct (strip line).
Qed.

Lemma handle_llm_query_trimmed (c : completion) (part : pystr) :
  part ∈ handle_llm_query c →
  part ≠ [] ∧ strip part = part ∧ (newline ∉ part)
  ∧ (∀ ch, head part = Some ch → isspace ch = false)
  ∧ (∀ ch, last part = Some ch → isspace ch = false).
Proof.
  intros Hin.
  assert (part ≠ []) as Hne.
  { pose proof (handle_llm_query_parts c) as Hall.
    rewrite Forall_forall in Hall. by apply Hall. }
  split; [done|].
  unfold handle_llm_query in Hin.
  destruct c as [|[response|]];
    [by apply not_elem_of_nil in Hin| |by apply not_elem_of_nil in Hin].
  destruct (nonempty response); [|by apply not_elem_of_nil in Hin].
  apply list_elem_of_fmap in Hin as (line & -> & Hline).
  apply list_elem_of_In, filter_In in Hline as [Hline _].
  apply list_elem_of_In in Hline.
  split; [apply strip_idempotent|].
  split; [|split; [apply strip_head|apply strip_last]].
  intros Hnl%strip_elem. by apply (split_no_separator newline response line).
Qed.

Lemma no_parts_iff_spaces (response : pystr) :
  handle_llm_query (Returned (Some response)) = []
  ↔ Forall (λ line, forallb isspace line = true) (split newline response).
Proof.
  rewrite <- handle_llm_query_failed. unfold failed. split.
  - intros [?|[?|(r & [= <-] & Hblank)]]; [done..|].
    eapply Forall_impl; [exact Hblank|]. intros line. apply strip_nil_iff.
  - intros Hspaces. right. right. exists response. split; [done|].
    eapply Forall_impl; [exact Hspaces|]. intros line. apply strip_nil_iff.
Qed.

Lemma delay_clamp (msg : pystr) :
  (3 # 4 <= delay msg)%Q ∧ (delay msg <= 3 # 2)%Q
  ∧ ((per_sixty msg <= 3 # 4)%Q → (delay msg == 3 # 4)%Q)
  ∧ ((3 # 4 <= per_sixty msg)%Q → (per_sixty msg <= 3 # 2)%Q →
     (delay msg == per_sixty msg)%Q)
  ∧ ((3 # 2 <= per_sixty msg)%Q → (delay msg == 3 # 2)%Q).
Proof.
  unfold delay. fold (per_sixty msg).
  destruct (Q.min_spec (3 # 2) (per_sixty msg)) as [[Hlt Hmin]|[Hle Hmin]];
    destruct (Q.max_spec (3 # 4) (Qmin (3 # 2) (per_sixty msg)))
      as [[Hlt' Hmax]|[Hle' Hmax]];
    rewrite Hmax; rewrite Hmin in *; repeat split; intros; lra.
Qed.

(** How each resumption of the delivery loop leaves the store and the
    sent log. *)
Lemma resume_debouncing w now tid task wake w' :
  tasks w !! tid = Some task →
  task_stage task = Debouncing wake →
  step w (Resume now tid Timer) = Some w' →
  manager w' = manager w ∧ sent w' = sent w ∧ config w' = config w.
Proof.
  intros Htask Hstage Hstep.
  apply step_resume in Hstep as (task0 & s & w1 & Htask0 & _ & Hq & ->).
  assert (task0 = task) as -> by congruence.
  revert Hq. unfold delayed_llm_query. rewrite Hstage. cbv zeta.
  destruct (read_time _ _) as [last_time st].
  repeat case_match; intros [= <- <-]; done.
Qed.

Lemma stage_of_Some w tid s :
  stage_of w tid = Some s →
  ∃ task, tasks w !! tid = Some task ∧ task_stage task = s.
Proof. unfold stage_of. intros (task & ? & ?)%fmap_Some. eauto. Qed.

Lemma resume_querying w now tid task c w' :
  tasks w !! tid = Some task →
  task_stage task = Querying →
  step w (Resume now tid (Response c)) = Some w' →
  manager w' = manager w
  ∧ match handle_llm_query c with
    | [] => sent w' = sent w ∧ stage_of w' tid = Some Exited
    | first_msg :: rest =>
        sent w' = sent w ++ [(now, tid, first_msg)]
        ∧ stage_of w' tid = Some (Sending (first_msg :: rest) rest)
    end.
Proof.
  intros Htask Hstage Hstep.
  apply step_resume in Hstep as (task0 & s & w1 & Htask0 & _ & Hq & ->).
  assert (task0 = task) as -> by congruence.
  pose proof (delayed_llm_query_frame _ _ _ _ _ _ _ Hq) as (Htasks & _ & _).
  simpl in Htasks.
  rewrite stage_of_set_stage, decide_True by done.
  unfold stage_of. rewrite Htasks, Htask. simpl.
  revert Hq. unfold delayed_llm_query. rewrite Hstage.
  destruct (handle_llm_query c); intros [= <- <-]; done.
Qed.

Lemma resume_sending w now tid task parts rest wall w' :
  tasks w !! tid = Some task →
  task_stage task = Sending parts rest →
  step w (Resume now tid (Delivered wall)) = Some w' →
  sent w' = sent w
  ∧ match rest with
    | msg :: rest' =>
        manager w' = manager w
        ∧ stage_of w' tid = Some (Pacing (now + delay msg) parts msg rest')
    | [] =>
        manager w'
        = add_self_message (task_session_id task)
            (bot_message (config w) (task_event task) wall parts) (manager w)
        ∧ stage_of w' tid = Some Exited
    end.
Proof.
  intros Htask Hstage Hstep.
  apply step_resume in Hstep as (task0 & s & w1 & Htask0 & _ & Hq & ->).
  assert (task0 = task) as -> by congruence.
  pose proof (delayed_llm_query_frame _ _ _ _ _ _ _ Hq) as (Htasks & _ & _).
  simpl in Htasks.
  rewrite stage_of_set_stage, decide_True by done.
  unfold stage_of. rewrite Htasks, Htask. simpl.
  revert Hq. unfold delayed_llm_query. rewrite Hstage.
  destruct rest; intros [= <- <-]; done.
Qed.

Lemma resume_pacing w now tid task wake parts msg rest w' :
  tasks w !! tid = Some task →
  task_stage task = Pacing wake parts msg rest →
  step w (Resume now tid Timer) = Some w' →
  (wake <= now)%Q
  ∧ manager w' = manager w
  ∧ sent w' = sent w ++ [(now, tid, msg)]
  ∧ stage_of w' tid = Some (Sending parts rest).
Proof.
  intros Htask Hstage Hstep.
  apply step_resume in Hstep as (task0 & s & w1 & Htask0 & _ & Hq & ->).
  assert (task0 = task) as -> by congruence.
  pose proof (delayed_llm_query_frame _ _ _ _ _ _ _ Hq) as (Htasks & _ & _).
  simpl in Htasks.
  rewrite stage_of_set_stage, decide_True by done.
  unfold stage_of. rewrite Htasks, Htask. simpl.
  revert Hq. unfold delayed_llm_query. rewrite Hstage.
  destruct (Qle_bool wake now) eqn:Hdue; [|done].
  apply Qle_bool_iff in Hdue. intros [= <- <-]. done.
Qed.

(** C6. When the query fails, returns nothing, or returns only blank
    lines, the cycle that fired exits with nothing sent and nothing
    appended: registry, session files and sent log are after the abort what
    they were when the execution began. *)
Theorem aborted_cycle_leaves_log w now tid task wake w1 answered c w2 :
  tasks w !! tid = Some task →
  task_stage task = Debouncing wake →
  step w (Resume now tid Timer) = Some w1 →
  stage_of w1 tid = Some Querying →
  failed c →
  step w1 (Resume answered tid (Response c)) = Some w2 →
  manager w2 = manager w ∧ sent w2 = sent w ∧ stage_of w2 tid = Some Exited.
Proof.
  intros Htask Hstage Hfire Hquery Hfailed Habort.
  destruct (resume_debouncing _ _ _ _ _ _ Htask Hstage Hfire)
    as (Hm1 & Hs1 & _).
  apply stage_of_Some in Hquery as (task1 & Htask1 & Hstage1).
  destruct (resume_querying _ _ _ _ _ _ Htask1 Hstage1 Habort) as [Hm2 Hout].
  apply handle_llm_query_failed in Hfailed. rewrite Hfailed in Hout.
  destruct Hout as [Hs2 Hexit].
  repeat split; congruence.
Qed.

Lemma aborted_cycle_leaves_log_witness :
  manager aborted_world = manager debouncing_world
  ∧ sent aborted_world = sent debouncing_world
  ∧ stage_of aborted_world 0 = Some Exited.
Proof.
  apply (aborted_cycle_leaves_log debouncing_world 5 0%nat
           {| task_event := mention 100; task_stage := Debouncing 5 |}
           5%Q querying_world 6 (Returned (Some blank_answer))).
  - reflexivity.
  - reflexivity.
  - vm_compute. reflexivity.
  - vm_compute. reflexivity.
  - right. right. exists blank_answer. split; [reflexivity|].
    repeat constructor.
  - vm_compute. reflexivity.
Defined.

(** C7. The answer is split at line breaks; a line of white space only
    (an empty line included) is discarded, every other line is stripped of
    the white space around it, and the parts are these stripped lines in
    line order, each non-empty, free of line breaks and with no white space
    at either end.  The first part is sent by the very step that receives the
    answer; each further part is sent, in list order, by the timer that ends
    a sleep of [max(0.75, min(1.5, len(part) / 60))] seconds started when the
    send before it returned, and not before that sleep is over.  No part at
    all, which is the case exactly when every line is white space, is an
    abort with nothing sent.  A second part of 90 characters waits exactly
    1.5 seconds; of a blank line, ["ok"] and a blank line only ["ok"] is
    sent; an answer of blank and white-space lines sends nothing. *)
Theorem delivery_pacing :
  (∀ c, Forall (λ part, part ≠ []) (handle_llm_query c))
  ∧ (∀ response,
       nonempty response = true →
       handle_llm_query (Returned (Some response))
       = map strip (List.filter (λ line, nonempty (strip line))
                      (split newline response)))
  ∧ (∀ w now tid task c w',
       tasks w !! tid = Some task →
       task_stage task = Querying →
       step w (Resume now tid (Response c)) = Some w' →
       match handle_llm_query c with
       | [] => sent w' = sent w ∧ stage_of w' tid = Some Exited
       | first_msg :: rest =>
           sent w' = sent w ++ [(now, tid, first_msg)]
           ∧ stage_of w' tid = Some (Sending (first_msg :: rest) rest)
       end)
  ∧ (∀ w now tid task parts msg rest wall w',
       tasks w !! tid = Some task →
       task_stage task = Sending parts (msg :: rest) →
       step w (Resume now tid (Delivered wall)) = Some w' →
       sent w' = sent w
       ∧ stage_of w' tid = Some (Pacing (now + delay msg) parts msg rest))
  ∧ (∀ w now tid task wake parts msg rest w',
       tasks w !! tid = Some task →
       task_stage task = Pacing wake parts msg rest →
       step w (Resume now tid Timer) = Some w' →
       (wake <= now)%Q
       ∧ sent w' = sent w ++ [(now, tid, msg)]
       ∧ stage_of w' tid = Some (Sending parts rest))
  ∧ (∀ msg,
       (3 # 4 <= delay msg)%Q ∧ (delay msg <= 3 # 2)%Q
       ∧ ((per_sixty msg <= 3 # 4)%Q → (delay msg == 3 # 4)%Q)
       ∧ ((3 # 4 <= per_sixty msg)%Q → (per_sixty msg <= 3 # 2)%Q →
          (delay msg == per_sixty msg)%Q)
       ∧ ((3 # 2 <= per_sixty msg)%Q → (delay msg == 3 # 2)%Q))
  ∧ (handle_llm_query (Returned (Some two_lines)) = [py "hi"; long_line]
     ∧ delay long_line = (3 # 2)%Q
     ∧ sent <$> run fresh_world whole_cycle
       = Some [(6%Q, 0%nat, py "hi"); ((15 # 2)%Q, 0%nat, long_line)])
  ∧ handle_llm_query (Returned (Some ok_answer)) = [py "ok"]
  ∧ (∀ response,
       nonempty response = true →
       handle_llm_query (Returned (Some response))
       = omap (λ line,
                 if forallb isspace line then None else Some (strip line))
           (split newline response))
  ∧ (∀ response,
       handle_llm_query (Returned (Some response)) = []
       ↔ Forall (λ line, forallb isspace line = true)
           (split newline response))
  ∧ (∀ c part,
       part ∈ handle_llm_query c →
       strip part = part ∧ (newline ∉ part)
       ∧ (∀ ch, head part = Some ch → isspace ch = false)
       ∧ (∀ ch, last part = Some ch → isspace ch = false))
  ∧ (handle_llm_query (Returned (Some blank_answer)) = []
     ∧ handle_llm_query (Returned (Some spaced_answer))
       = [py "ok"; py "a b"]).
Proof.
  split; [exact handle_llm_query_parts|].
  split; [by intros response Hne; unfold handle_llm_query; rewrite Hne|].
  split.
  { intros w now tid task c w' Htask Hstage Hstep.
    by destruct (resume_querying _ _ _ _ _ _ Htask Hstage Hstep). }
  split.
  { intros w now tid task parts msg rest wall w' Htask Hstage Hstep.
    destruct (resume_sending _ _ _ _ _ _ _ _ Htask Hstage Hstep)
      as (Hsent & _ & Hpace).
    done. }
  split.
  { intros w now tid task wake parts msg rest w' Htask Hstage Hstep.
    destruct (resume_pacing _ _ _ _ _ _ _ _ _ Htask Hstage Hstep)
      as (Hdue & _ & Hsent & Hnext).
    done. }
  split; [exact delay_clamp|].
  split; [by_evaluation|].
  split; [vm_compute; reflexivity|].
  split.
  { intros response Hne. unfold handle_llm_query. rewrite Hne.
    apply stripped_lines. }
  split; [exact no_parts_iff_spaces|].
  split.
  { intros c part Hin.
    by destruct (handle_llm_query_trimmed c part Hin) as (_ & ? & ? & ? & ?). }
  by_evaluation.
Qed.

Lemma delivery_pacing_witness :
  (sent pacing_world = sent sending_world
   ∧ stage_of pacing_world 0
     = Some (Pacing (6 + delay long_line) [py "hi"; long_line] long_line []))
  ∧ handle_llm_query (Returned (Some blank_answer)) = []
  ∧ (py "a b" ∈ handle_llm_query (Returned (Some spaced_answer))
     ∧ ∀ ch, last (py "a b") = Some ch → isspace ch = false).
Proof.
  destruct delivery_pacing
    as (_ & _ & _ & Hpace & _ & _ & _ & _ & _ & Hblank & Htrim & _).
  split; [|split].
  - apply (Hpace sending_world 6%Q 0%nat
             {| task_event := mention 100;
                task_stage := Sending [py "hi"; long_line] [long_line] |}
             [py "hi"; long_line] long_line [] 0 pacing_world);
      vm_compute; reflexivity.
  - apply (proj2 (Hblank blank_answer)). repeat constructor.
  - assert (py "a b" ∈ handle_llm_query (Returned (Some spaced_answer)))
      as Hin by (apply (bool_decide_unpack _); vm_compute; exact I).
    split; [exact Hin|].
    by destruct (Htrim (Returned (Some spaced_answer)) (py "a b") Hin)
      as (_ & _ & _ & Hlast).
Defined.

(** C8, what the code does.  The message recorded after the last part has
    one [Text] per part, in order, and goes through [add_message] of the
    session registered under the id; its [user_id] is the string
    [str(event.self_id)], which no integer equals.  After the whole cycle
    of the sample the session of bot 99 ends with a message whose
    [user_id] is the string ["99"]. *)
Theorem bot_message_user_id_is_str :
  (∀ cfg event wall parts,
     user_id (bot_message cfg event wall parts)
     = PyStr (str_of_int (event_self_id event))
     ∧ user_id (bot_message cfg event wall parts)
       ≠ PyInt (event_self_id event)
     ∧ message (bot_message cfg event wall parts) = map Text parts)
  ∧ (∀ w now tid task parts wall w',
       tasks w !! tid = Some task →
       task_stage task = Sending parts [] →
       step w (Resume now tid (Delivered wall)) = Some w' →
       manager w'
       = add_self_message (task_session_id task)
           (bot_message (config w) (task_event task) wall parts)
           (manager w))
  ∧ (run fresh_world whole_cycle = Some replied_world
     ∧ self_id <$> sessions (manager replied_world) !! 7 = Some 99
     ∧ map user_id <$> (messages <$> sessions (manager replied_world) !! 7)
       = Some [PyInt 42; PyStr (py "99")]
     ∧ map message <$> (messages <$> sessions (manager replied_world) !! 7)
       = Some [[Text (py "hi")]; [Text (py "hi"); Text long_line]]
     ∧ PyStr (py "99") ≠ PyInt 99).
Proof.
  split; [by intros cfg event wall parts|].
  split.
  { intros w now tid task parts wall w' Htask Hstage Hstep.
    by destruct (resume_sending _ _ _ _ _ _ _ _ Htask Hstage Hstep)
      as (_ & Hm & _). }
  split_conj; try (vm_compute; reflexivity). discriminate.
Qed.
End Scheduler.

(** * Further properties of the history store *)

Section StoreMore.
Implicit Types (s : Session) (new : SimpleMessage).

Lemma add_message_unmerged new s :
  fst (_try_merge_message new s) = false →
  add_message new s
  = if max_histories s <=? Z.of_nat (length (messages s))
    then match messages s with
         | [] => Raise IndexError
         | _ :: rest => Ok (set_messages (rest ++ [new]) s)
         end
    else Ok (set_messages (messages s ++ [new]) s).
Proof.
  unfold add_message.
  destruct (_try_merge_message new s) as [merged s1]. simpl. by intros ->.
Qed.

Lemma try_merge_unmergeable new s :
  (∀ a, last (messages s) = Some a → mergeable a new = false) →
  fst (_try_merge_message new s) = false.
Proof.
  intros Hlast. unfold _try_merge_message.
  destruct (last (messages s)) as [a|]; [|done].
  by rewrite (Hlast a eq_refl).
Qed.

Lemma add_messages_snoc (ms : list SimpleMessage) new s :
  add_messages (ms ++ [new]) s = add_message_or_keep new (add_messages ms s).
Proof. unfold add_messages. by rewrite foldl_app. Qed.

Lemma tail_drop {A} (l : list A) (k : nat) : tail (drop k l) = drop (S k) l.
Proof.
  revert k. induction l as [|x l IH]; intros [|k]; simpl; done.
Qed.

Lemma unmergeable_chain_snoc (ms : list SimpleMessage) new :
  unmergeable_chain (ms ++ [new]) →
  unmergeable_chain ms
  ∧ ∀ a, last ms = Some a → mergeable a new = false.
Proof.
  intros Hchain. split.
  - intros i a b Ha Hb.
    apply (Hchain i a b); by apply lookup_app_l_Some.
  - intros a Ha. apply last_Some in Ha as [pre ->].
    apply (Hchain (length pre) a new).
    + rewrite <- app_assoc. simpl. by apply list_lookup_middle.
    + replace (S (length pre)) with (length (pre ++ [a]))
        by (rewrite length_app; simpl; lia).
      by apply list_lookup_middle.
Qed.

(** X1. Sliding window.  Into an empty conversation of capacity [C > 0],
    a sequence of messages none of which merges with its predecessor
    leaves exactly its last [C] messages, in order. *)
Theorem sliding_window_keeps_last (ms : list SimpleMessage) s :
  0 < max_histories s →
  messages s = [] →
  unmergeable_chain ms →
  messages (add_messages ms s)
  = drop (length ms - Z.to_nat (max_histories s)) ms.
Proof.
  intros Hcap Hempty.
  cut (unmergeable_chain ms →
       messages (add_messages ms s)
       = drop (length ms - Z.to_nat (max_histories s)) ms
       ∧ max_histories (add_messages ms s) = max_histories s);
    [tauto|].
  induction ms as [|new ms IH] using rev_ind; intros Hchain.
  - unfold add_messages. simpl. by rewrite Hempty.
  - apply unmergeable_chain_snoc in Hchain as [Hchain Hlast].
    destruct (IH Hchain) as [Hms Hmax].
    rewrite add_messages_snoc. unfold add_message_or_keep.
    set (cur := add_messages ms s) in *.
    set (c := Z.to_nat (max_histories s)) in *.
    assert (1 <= c)%nat as Hc by (unfold c; lia).
    assert (fst (_try_merge_message new cur) = false) as Hno.
    { apply try_merge_unmergeable. intros a Ha. apply Hlast.
      rewrite Hms in Ha. apply last_Some in Ha as [pre Hpre].
      apply last_Some. exists (take (length ms - c) ms ++ pre).
      rewrite <- app_assoc, <- Hpre. by rewrite take_drop. }
    rewrite (add_message_unmerged _ _ Hno), Hmax, Hms, length_drop, length_app.
    simpl length.
    destruct (Z.leb_spec (max_histories s)
                (Z.of_nat (length ms - (length ms - c)))) as [Hfull|Hroom].
    + assert (c <= length ms)%nat as Hle by (unfold c; lia).
      destruct (drop (length ms - c) ms) as [|y rest] eqn:Hdrop.
      { apply (f_equal length) in Hdrop. rewrite length_drop in Hdrop.
        simpl in Hdrop. lia. }
      simpl. split; [|done].
      replace rest with (tail (drop (length ms - c) ms)) by by rewrite Hdrop.
      rewrite tail_drop.
      replace (length ms + 1 - c)%nat with (S (length ms - c)) by lia.
      rewrite drop_app_le by lia. done.
    + assert (length ms < c)%nat as Hlt by (unfold c; lia).
      simpl. split; [|done].
      replace (length ms - c)%nat with 0%nat by lia.
      replace (length ms + 1 - c)%nat with 0%nat by lia.
      by rewrite !drop_0.
Qed.

Lemma sliding_window_keeps_last_witness :
  messages (add_messages
              [text_message 1 0 "a"; text_message 2 0 "b";
               text_message 3 0 "c"] (sample_session 2 []))
  = drop (3 - Z.to_nat 2)
      [text_message 1 0 "a"; text_message 2 0 "b"; text_message 3 0 "c"].
Proof.
  apply (sliding_window_keeps_last
           [text_message 1 0 "a"; text_message 2 0 "b"; text_message 3 0 "c"]
           (sample_session 2 [])).
  - reflexivity.
  - reflexivity.
  - intros [|[|[|i]]] a b Ha Hb; simpl in Ha, Hb;
      try discriminate; injection Ha as <-; injection Hb as <-; reflexivity.
Defined.

Lemma add_message_appends new s pre a :
  messages s = pre ++ [a] →
  mergeable a new = false →
  ∃ s', add_message new s = Ok s'
        ∧ last (messages s') = Some new
        ∧ (messages s' = messages s ++ [new]
           ∨ messages s' = tail (messages s) ++ [new]).
Proof.
  intros Hm Hno.
  rewrite add_message_unmerged
    by (rewrite (try_merge_snoc _ _ _ _ Hm); by rewrite Hno).
  destruct (_ <=? _).
  - destruct (messages s) as [|y rest] eqn:Hs; [by destruct pre|].
    eexists. split; [done|]. simpl. rewrite last_snoc. auto.
  - eexists. split; [done|]. simpl. rewrite last_snoc. auto.
Qed.

(** X2. The merge window is anchored at the first message of a run.  An
    entry that absorbed a message keeps its own time, so a third message is
    merged iff it is within 180 seconds of the entry's first message, however
    close it is to the message absorbed last; merged, the entry holds the
    three contents in arrival order, and otherwise the third message becomes
    the last entry on its own. *)
Theorem merge_window_anchored s pre (a b c : SimpleMessage) :
  messages s = pre ++ [a] →
  mergeable a b = true →
  mergeable (extend_message a b) c = mergeable a c
  ∧ (mergeable a c = true →
     messages (add_messages [b; c] s)
     = pre ++ [extend_message (extend_message a b) c]
     ∧ message (extend_message (extend_message a b) c)
       = (message a ++ message b) ++ message c)
  ∧ (mergeable a c = false →
     last (messages (add_messages [b; c] s)) = Some c).
Proof.
  intros Hm Hab.
  assert (add_messages [b; c] s
          = add_message_or_keep c
              (set_messages (pre ++ [extend_message a b]) s)) as Hrun.
  { unfold add_messages. simpl. unfold add_message_or_keep at 2.
    by rewrite (add_message_merged _ _ _ _ Hm Hab). }
  split; [done|]. rewrite Hrun. unfold add_message_or_keep. split.
  - intros Hac.
    rewrite (add_message_merged c _ pre (extend_message a b)); done.
  - intros Hac.
    destruct (add_message_appends c
                (set_messages (pre ++ [extend_message a b]) s)
                pre (extend_message a b)) as (s' & -> & Hlast & _); done.
Qed.

Lemma merge_window_anchored_witness :
  mergeable (text_message 42 280 "b") (text_message 42 281 "c") = true
  ∧ last (messages
            (add_messages [text_message 42 280 "b"; text_message 42 281 "c"]
               (sample_session 10 [text_message 42 100 "a"])))
    = Some (text_message 42 281 "c").
Proof.
  split; [reflexivity|].
  apply (proj2 (proj2 (merge_window_anchored
                         (sample_session 10 [text_message 42 100 "a"]) []
                         (text_message 42 100 "a") (text_message 42 280 "b")
                         (text_message 42 281 "c") eq_refl eq_refl))).
  reflexivity.
Defined.

(** X3. A reply of the bot never shares an entry with a user's message.
    The bot's [user_id] is a string and a user's an integer, so whatever the
    ids and times, the reply appended after a user's message and a user's
    message appended after a reply each become the last entry on their own;
    two replies of the same bot at most 180 seconds apart do merge. *)
Theorem reply_never_merges_with_user cfg (ev event : MessageEvent)
    (wall : Z) (parts : list pystr) s pre :
  (messages s = pre ++ [SimpleMessage_of_event event] →
   ∃ s', add_message (bot_message cfg ev wall parts) s = Ok s'
         ∧ last (messages s') = Some (bot_message cfg ev wall parts))
  ∧ (messages s = pre ++ [bot_message cfg ev wall parts] →
     ∃ s', add_message (SimpleMessage_of_event event) s = Ok s'
           ∧ last (messages s') = Some (SimpleMessage_of_event event))
  ∧ (∀ wall' parts',
       messages s = pre ++ [bot_message cfg ev wall parts] →
       Z.abs (wall - wall') <= 180 →
       add_message (bot_message cfg ev wall' parts') s
       = Ok (set_messages
               (pre ++ [extend_message (bot_message cfg ev wall parts)
                          (bot_message cfg ev wall' parts')]) s)).
Proof.
  split; [|split].
  - intros Hm.
    destruct (add_message_appends (bot_message cfg ev wall parts) s pre
                (SimpleMessage_of_event event) Hm) as (s' & Hadd & Hlast & _);
      [done|eauto].
  - intros Hm.
    destruct (add_message_appends (SimpleMessage_of_event event) s pre
                (bot_message cfg ev wall parts) Hm) as (s' & Hadd & Hlast & _);
      [done|eauto].
  - intros wall' parts' Hm Hnear.
    apply (add_message_merged _ _ _ _ Hm).
    apply mergeable_spec. done.
Qed.

Lemma reply_never_merges_with_user_witness :
  ∃ s', add_message (bot_message open_config (mention 100) 101 [py "hi"])
          (sample_session 10 [SimpleMessage_of_event (mention 100)]) = Ok s'
        ∧ last (messages s')
          = Some (bot_message open_config (mention 100) 101 [py "hi"]).
Proof.
  apply (proj1 (reply_never_merges_with_user open_config (mention 100)
                  (mention 100) 101 [py "hi"]
                  (sample_session 10 [SimpleMessage_of_event (mention 100)])
                  [])).
  reflexivity.
Defined.
End StoreMore.

(** * Properties of message extraction *)

Section Extraction.
Implicit Types (segs : list MessageSegment).

Lemma from_message_loop_images segs contents last_segment :
  List.filter is_image_url (from_message_loop segs contents last_segment)
  = List.filter is_image_url contents ++ omap segment_image segs.
Proof.
  revert contents last_segment.
  induction segs as [|g segs IH]; intros contents last_segment; simpl.
  - by rewrite app_nil_r.
  - destruct (mface_echo contents last_segment g) eqn:Hecho.
    + rewrite IH. destruct g; try done.
      all: by destruct last_segment as [[]|].
    + rewrite IH. destruct g; simpl; rewrite ?List.filter_app; simpl;
        rewrite <- ?app_assoc; done.
Qed.

(** X4. Images are never dropped.  The image contents of the extracted
    message are exactly the image and mface segments of the event, in
    order, each with its url and its summary, or ["low"] without one. *)
Theorem from_message_keeps_images segs :
  List.filter is_image_url (_from_message segs) = omap segment_image segs.
Proof. unfold _from_message. by rewrite from_message_loop_images. Qed.

Lemma from_message_loop_sublist segs contents last_segment :
  ∃ kept, from_message_loop segs contents last_segment = contents ++ kept
          ∧ sublist kept (omap segment_content segs).
Proof.
  revert contents last_segment.
  induction segs as [|g segs IH]; intros contents last_segment; simpl.
  - exists []. by rewrite app_nil_r.
  - destruct (mface_echo contents last_segment g) eqn:Hecho.
    + destruct (IH contents (Some TyText)) as (kept & -> & Hsub).
      exists kept. split; [done|].
      destruct g; try (by destruct last_segment as [[]|]).
      simpl. by apply sublist_cons.
    + destruct g; simpl.
      all: match goal with
           | |- context [from_message_loop _ ?c ?l] =>
               destruct (IH c l) as (kept & -> & Hsub)
           end.
      * exists (Text text :: kept). rewrite <- app_assoc.
        split; [done|]. by apply sublist_skip.
      * eexists (_ :: kept). rewrite <- app_assoc.
        split; [done|]. by apply sublist_skip.
      * eexists (_ :: kept). rewrite <- app_assoc.
        split; [done|]. by apply sublist_skip.
      * by exists kept.
Qed.

Lemma from_message_loop_no_mface segs contents last_segment :
  forallb (λ g, negb (is_mface g)) segs = true →
  last_segment ≠ Some TyMface →
  from_message_loop segs contents last_segment
  = contents ++ omap segment_content segs.
Proof.
  revert contents last_segment.
  induction segs as [|g segs IH]; intros contents last_segment Hno Hlast;
    simpl in *.
  - by rewrite app_nil_r.
  - apply andb_true_iff in Hno as [Hg Hno].
    assert (mface_echo contents last_segment g = false) as ->.
    { destruct g; try done. by destruct last_segment as [[]|]. }
    destruct g; simpl in *; try done.
    all: rewrite IH by done; by rewrite <- ?app_assoc.
Qed.

Lemma from_message_loop_echo segs contents last_segment url summary :
  from_message_loop
    (segs ++ [SegMface url (Some summary); SegText summary])
    contents last_segment
  = from_message_loop segs contents last_segment ++ [ImageUrl url summary].
Proof.
  revert contents last_segment.
  induction segs as [|g segs IH]; intros contents last_segment; simpl.
  - rewrite last_snoc. by rewrite bool_decide_eq_true_2.
  - destruct (mface_echo contents last_segment g); apply IH.
Qed.

Lemma from_message_loop_extracted segs contents last_segment
    (prev : option MessageSegment) :
  last_segment = seg_type <$> prev →
  (∀ url sm, prev = Some (SegMface url sm) →
             last contents = Some (ImageUrl url (default (py "low") sm))) →
  from_message_loop segs contents last_segment
  = contents ++ extracted prev segs.
Proof.
  revert contents last_segment prev.
  induction segs as [|g segs IH]; intros contents last_segment prev Hty Himg;
    simpl.
  - by rewrite app_nil_r.
  - assert (mface_echo contents last_segment g = is_echo prev g) as ->.
    { subst last_segment. unfold mface_echo, is_echo.
      destruct g as [t| | |]; try by destruct prev as [[]|].
      destruct prev as [[| |url sm|]|]; try done. simpl.
      by rewrite (Himg url sm eq_refl). }
    destruct (is_echo prev g) eqn:Hecho.
    + rewrite (IH contents (Some TyText) (Some g)).
      * reflexivity.
      * by destruct g, prev as [[]|].
      * intros url sm [= ->]. by destruct prev as [[]|].
    + destruct g as [t|url sm|url sm|]; simpl.
      * rewrite (IH _ _ (Some (SegText t))); [|done|done].
        by rewrite <- app_assoc.
      * rewrite (IH _ _ (Some (SegImage url sm))); [|done|done].
        by rewrite <- app_assoc.
      * rewrite (IH _ _ (Some (SegMface url sm))); [|done|].
        -- by rewrite <- app_assoc.
        -- intros url' sm' [= <- <-]. by rewrite last_snoc.
      * by rewrite (IH _ _ (Some SegOther)).
Qed.

Lemma extracted_app (prev : option MessageSegment) segs g more :
  extracted prev (segs ++ g :: more)
  = extracted prev (segs ++ [g]) ++ extracted (Some g) more.
Proof.
  revert prev. induction segs as [|h segs IH]; intros prev; simpl.
  - by rewrite app_nil_r.
  - by rewrite IH, app_assoc.
Qed.

(** X5. Text is dropped exactly as the echo of an mface.  Every segment
    contributes its content, in order, except that a text segment
    contributes nothing when it comes right after an mface segment and
    equals the detail recorded for it (its summary, or ["low"] when it has
    none); any other text is kept.  So the extracted contents are an
    in-order sub-sequence of what the segments convert to, and an event
    without mface segments keeps everything. *)
Theorem from_message_drops_only_echo segs :
  sublist (_from_message segs) (omap segment_content segs)
  ∧ (forallb (λ g, negb (is_mface g)) segs = true →
     _from_message segs = omap segment_content segs)
  ∧ (∀ url summary,
       _from_message (segs ++ [SegMface url (Some summary); SegText summary])
       = _from_message segs ++ [ImageUrl url summary])
  ∧ _from_message segs = extracted None segs
  ∧ (∀ prev t,
       is_echo (Some prev) (SegText t) = true
       ↔ ∃ url sm, prev = SegMface url sm ∧ t = default (py "low") sm)
  ∧ (∀ prev t more,
       _from_message (segs ++ prev :: SegText t :: more)
       = _from_message (segs ++ [prev])
         ++ (if is_echo (Some prev) (SegText t) then [] else [Text t])
         ++ extracted (Some (SegText t)) more).
Proof.
  assert (∀ l, _from_message l = extracted None l) as Hexact.
  { intros l. unfold _from_message.
    by rewrite (from_message_loop_extracted l [] None None). }
  unfold _from_message. split; [|split; [|split; [|split; [|split]]]].
  - by destruct (from_message_loop_sublist segs [] None) as (kept & -> & Hsub).
  - intros Hno. by rewrite from_message_loop_no_mface.
  - intros url summary. apply from_message_loop_echo.
  - apply Hexact.
  - intros prev t. unfold is_echo. split.
    + destruct prev as [| |url sm|]; try done.
      intros Heq%bool_decide_eq_true. by exists url, sm.
    + intros (url & sm & -> & ->). by apply bool_decide_eq_true.
  - intros prev t more. fold (_from_message (segs ++ prev :: SegText t :: more)).
    fold (_from_message (segs ++ [prev])). rewrite !Hexact.
    rewrite extracted_app. by f_equal.
Qed.

Lemma from_message_drops_only_echo_witness :
  _from_message [SegText (py "a"); SegImage (py "u") None; SegOther]
  = omap segment_content [SegText (py "a"); SegImage (py "u") None; SegOther]
  ∧ _from_message
      ([] ++ SegMface (py "u") (Some (py "wave")) :: SegText (py "hi") :: [])
    = _from_message ([] ++ [SegMface (py "u") (Some (py "wave"))])
      ++ [Text (py "hi")] ++ extracted (Some (SegText (py "hi"))) []
  ∧ _from_message
      [SegMface (py "u") None; SegText (py "low"); SegText (py "low")]
    = [ImageUrl (py "u") (py "low"); Text (py "low")].
Proof.
  split; [|split].
  - apply (proj1 (proj2 (from_message_drops_only_echo
                           [SegText (py "a"); SegImage (py "u") None;
                            SegOther]))).
    reflexivity.
  - apply (proj2 (proj2 (proj2 (proj2 (proj2
             (from_message_drops_only_echo [])))))
             (SegMface (py "u") (Some (py "wave"))) (py "hi") []).
  - apply (proj2 (proj2 (proj2 (proj2 (proj2
             (from_message_drops_only_echo [])))))
             (SegMface (py "u") None) (py "low") [SegText (py "low")]).
Defined.
End Extraction.

(** * Further properties of the registry *)

Section RegistryMore.
Implicit Types (m : SessionManager) (event : MessageEvent).

Lemma Session_from_dict_ok (d : Session) fs :
  0 < session_id d → Session_from_dict d fs = Ok d.
Proof.
  intros Hpos. unfold Session_from_dict, Session_init.
  destruct (Z.leb_spec (session_id d) 0); [lia|]. by destruct d.
Qed.

Lemma Session_from_dict_raise (d : Session) fs :
  session_id d <= 0 → Session_from_dict d fs = Raise ValueError.
Proof.
  intros Hneg. unfold Session_from_dict, Session_init.
  destruct (Z.leb_spec (session_id d) 0); [done|lia].
Qed.

(** X6. Start-up loading: the last file scanned wins.  After
    [_load_all_sessions] the registry holds, under each positive id, the
    contents of the last scanned file that carries this id, whatever its
    kind, and nothing under any other key; a file with an id that is not
    positive is skipped.  Of a group file and a private file with one id,
    only the one scanned later is registered. *)
Theorem load_all_sessions_last_wins (scan : list Session) fs (k : Z) :
  _load_all_sessions scan fs !! k
  = if bool_decide (0 < k)
    then last (filter (λ d, session_id d = k) scan)
    else None.
Proof.
  unfold _load_all_sessions.
  induction scan as [|d scan IH] using rev_ind.
  - simpl. rewrite lookup_empty. by case_bool_decide.
  - rewrite foldl_app. simpl. rewrite filter_app.
    destruct (Z.le_gt_cases (session_id d) 0) as [Hneg|Hpos].
    + rewrite (Session_from_dict_raise d fs Hneg), IH.
      destruct (decide (session_id d = k)) as [Heq|Hne].
      * subst k. rewrite !bool_decide_eq_false_2 by lia. done.
      * rewrite (filter_cons_False _ d []) by done.
        by rewrite filter_nil, app_nil_r.
    + rewrite (Session_from_dict_ok d fs) by lia.
      destruct (decide (session_id d = k)) as [Heq|Hne].
      * subst k. rewrite lookup_insert_eq, bool_decide_eq_true_2 by lia.
        rewrite (filter_cons_True _ d []) by done.
        by rewrite filter_nil, last_snoc.
      * rewrite lookup_insert_ne, IH by done.
        rewrite (filter_cons_False _ d []) by done.
        by rewrite filter_nil, app_nil_r.
Qed.

Lemma add_message_fields (new : SimpleMessage) (s s' : Session) :
  add_message new s = Ok s' →
  session_id s' = session_id s ∧ session_type s' = session_type s
  ∧ self_id s' = self_id s.
Proof.
  unfold add_message, _try_merge_message.
  destruct (last (messages s)) as [a|]; [destruct (mergeable a new)|];
    simpl; repeat case_match; intros [= <-]; done.
Qed.

Lemma SessionManager_init_coherent fs :
  registry_coherent (SessionManager_init fs).
Proof.
  intros k s. unfold SessionManager_init. simpl.
  rewrite load_all_sessions_last_wins.
  case_bool_decide as Hk; [|done].
  intros Hlast. split; [|done].
  apply last_Some in Hlast as [pre Hpre].
  assert (s ∈ filter (λ d, session_id d = k) (snd <$> map_to_list fs)) as Hin.
  { rewrite Hpre. apply elem_of_app. right. by apply list_elem_of_singleton. }
  by apply list_elem_of_filter in Hin as [Hid _].
Qed.

Lemma get_session_coherent event m s m1 :
  registry_coherent m → get_session event m = Ok (s, m1) →
  registry_coherent m1.
Proof.
  intros Hco. unfold get_session, Session_init.
  destruct (sessions m !! event_session_id event) as [s0|] eqn:Hs.
  - by intros [= <- <-].
  - destruct (Z.leb_spec (event_session_id event) 0); [done|].
    intros [= <- <-] k s1. simpl.
    destruct (decide (event_session_id event = k)) as [<-|Hne].
    + rewrite lookup_insert_eq. by intros [= <-].
    + rewrite lookup_insert_ne by done. apply Hco.
Qed.

Lemma store_message_coherent sid (msg : SimpleMessage) m m1 :
  registry_coherent m → store_message sid msg m = Ok m1 →
  registry_coherent m1.
Proof.
  intros Hco. unfold store_message.
  destruct (sessions m !! sid) as [s|] eqn:Hs; [|done].
  destruct (add_message msg s) as [s'|] eqn:Hadd; [|done].
  intros [= <-] k s1. simpl.
  destruct (decide (sid = k)) as [<-|Hne].
  - rewrite lookup_insert_eq. intros [= <-].
    destruct (add_message_fields _ _ _ Hadd) as (-> & _).
    by apply Hco.
  - rewrite lookup_insert_ne by done. apply Hco.
Qed.

Lemma add_self_message_coherent sid (msg : SimpleMessage) m :
  registry_coherent m → registry_coherent (add_self_message sid msg m).
Proof.
  intros Hco. unfold add_self_message.
  destruct (store_message sid msg m) eqn:Hstore; [|done].
  by eapply store_message_coherent.
Qed.

Lemma delete_session_coherent sid m :
  registry_coherent m → registry_coherent (delete_session sid m).
Proof.
  intros Hco. unfold delete_session.
  destruct (sessions m !! sid) as [s0|]; [|done].
  intros k s. simpl. intros [_ Hk]%lookup_delete_Some. by apply Hco.
Qed.

Lemma handle_all_message_coherent (now : Q) event (w : World) :
  registry_coherent (manager w) →
  registry_coherent (manager (handle_all_message now event w)).
Proof.
  intros Hco. unfold handle_all_message.
  destruct (check_access _ _); [|done]. simpl.
  destruct (get_session event (manager w)) as [[s m1]|] eqn:Hget; [|done].
  pose proof (get_session_coherent _ _ _ _ Hco Hget) as Hco1.
  destruct (store_message _ _ m1) as [m2|] eqn:Hstore; [|done].
  pose proof (store_message_coherent _ _ _ _ Hco1 Hstore) as Hco2.
  by case_match.
Qed.

Lemma step_coherent (w : World) l w' :
  registry_coherent (manager w) → step w l = Some w' →
  registry_coherent (manager w').
Proof.
  intros Hco Hstep. destruct l as [now event|now tid sig].
  - apply step_inbound in Hstep as ->.
    by apply handle_all_message_coherent.
  - apply step_resume in Hstep as (t & s & w1 & Ht & _ & Hq & ->).
    simpl. revert Hq. unfold delayed_llm_query. cbv zeta.
    destruct (read_time _ _) as [last_time st].
    destruct (task_stage t), sig; try done.
    all: repeat match goal with
         | |- context [if ?b then _ else _] => destruct b
         | |- context [match ?l with [] => _ | _ => _ end] => destruct l
         end; try done.
    all: intros [= <- <-]; simpl; try done.
    by apply add_self_message_coherent.
Qed.

(** X7. The registry stays coherent.  From start-up on, through every
    handler call and every step of every task, each registered session
    carries the id it is registered under and that id is positive. *)
Theorem registry_stays_coherent cfg fs (tr : list label) (w : World) :
  run (start_world cfg (SessionManager_init fs)) tr = Some w →
  registry_coherent (manager w).
Proof.
  assert (∀ tr w0 w1, registry_coherent (manager w0) →
            run w0 tr = Some w1 → registry_coherent (manager w1)) as Hrun.
  { clear. induction tr as [|l tr IH]; intros w0 w1 Hco; simpl.
    - by intros [= <-].
    - destruct (step w0 l) as [w2|] eqn:Hstep; [|done].
      apply IH. by eapply step_coherent. }
  apply Hrun. apply SessionManager_init_coherent.
Qed.

Lemma registry_stays_coherent_witness :
  registry_coherent (manager replied_world).
Proof.
  apply (registry_stays_coherent open_config ∅ whole_cycle replied_world).
  vm_compute. reflexivity.
Defined.

(** X9. [delete_session].  Deleting an id that is not registered changes
    nothing, a session file of that id included; deleting twice is deleting
    once.  Deleting a registered session removes its registry entry and the
    file of its own kind only: an event of the same kind then starts from an
    empty history of capacity 10, while an event of the other kind gets the
    history that the other kind's file still holds. *)
Theorem delete_session_forgets m (n : Z) :
  (sessions m !! n = None → delete_session n m = m)
  ∧ delete_session n (delete_session n m) = delete_session n m
  ∧ (∀ s event,
       sessions m !! n = Some s →
       0 < n →
       event_session_id event = n →
       (∀ kind, kind ≠ session_type s →
                files (delete_session n m) !! (kind, n) = files m !! (kind, n))
       ∧ (event_session_type event = session_type s →
          ∃ s' m', get_session event (delete_session n m) = Ok (s', m')
                   ∧ messages s' = [] ∧ max_histories s' = 10)
       ∧ (∀ d, event_session_type event ≠ session_type s →
               files m !! (event_session_type event, n) = Some d →
               ∃ s' m', get_session event (delete_session n m) = Ok (s', m')
                        ∧ messages s' = messages d)).
Proof.
  split; [|split].
  - intros Hnone. unfold delete_session. by rewrite Hnone.
  - unfold delete_session at 2 3.
    destruct (sessions m !! n) as [s|] eqn:Hs.
    + unfold delete_session. simpl. by rewrite lookup_delete_eq.
    + unfold delete_session. by rewrite Hs.
  - intros s event Hs Hpos Hsid.
    assert (delete_session n m
            = {| sessions := delete n (sessions m);
                 files := delete (session_type s, n) (files m) |}) as ->
      by (unfold delete_session; by rewrite Hs).
    split; [|split].
    + intros kind Hkind. simpl. apply lookup_delete_ne. congruence.
    + intros Hkind. unfold get_session, Session_init. simpl.
      rewrite Hsid, lookup_delete_eq.
      destruct (Z.leb_spec n 0); [lia|].
      eexists _, _. split; [done|]. simpl.
      by rewrite Hkind, lookup_delete_eq.
    + intros d Hkind Hd. unfold get_session, Session_init. simpl.
      rewrite Hsid, lookup_delete_eq.
      destruct (Z.leb_spec n 0); [lia|].
      eexists _, _. split; [done|]. simpl.
      rewrite lookup_delete_ne by congruence. by rewrite Hd.
Qed.

Lemma delete_session_forgets_witness :
  ∃ s' m',
    get_session (group_text true 100 "hi") (delete_session 7 stored_manager)
    = Ok (s', m')
    ∧ messages s' = [] ∧ max_histories s' = 10.
Proof.
  destruct (delete_session_forgets stored_manager 7) as (_ & _ & Hregistered).
  destruct (Hregistered (sample_session 10 [text_message 42 100 "a"])
              (group_text true 100 "hi")) as (_ & Hsame & _);
    [vm_compute; reflexivity | reflexivity | reflexivity |].
  apply Hsame. reflexivity.
Defined.

(** X10. Clearing the history.  For a positive conversation id
    [handle_clear] leaves the session of that id registered with no
    message and with the capacity it had, writes that cleared session to its
    file, and touches neither the scheduler state nor any task nor what was
    sent; clearing again changes nothing. *)
Theorem handle_clear_empties (event : MessageEvent) (w : World) :
  0 < event_session_id event →
  ∃ s', sessions (manager (handle_clear event w)) !! event_session_id event
        = Some s'
        ∧ messages s' = []
        ∧ files (manager (handle_clear event w))
            !! (session_type s', session_id s') = Some s'
        ∧ (∀ s, sessions (manager w) !! event_session_id event = Some s →
                max_histories s' = max_histories s
                ∧ session_type s' = session_type s)
        ∧ session_state (handle_clear event w) = session_state w
        ∧ tasks (handle_clear event w) = tasks w
        ∧ sent (handle_clear event w) = sent w
        ∧ handle_clear event (handle_clear event w) = handle_clear event w.
Proof.
  intros Hpos.
  assert (∃ s m1, get_session event (manager w) = Ok (s, m1)
                  ∧ (∀ s0, sessions (manager w) !! event_session_id event
                           = Some s0 → s = s0)) as (s & m1 & Hget & Hsame).
  { unfold get_session, Session_init.
    destruct (sessions (manager w) !! event_session_id event) as [s0|].
    - eexists _, _. split; [done|]. by intros ? [= <-].
    - destruct (Z.leb_spec (event_session_id event) 0); [lia|].
      eexists _, _. split; done. }
  unfold handle_clear at 1 2 3 4 5 6. rewrite Hget.
  exists (clear_history s). simpl. rewrite lookup_insert_eq.
  split; [done|]. split; [done|].
  split; [unfold _save_session; apply lookup_insert_eq|].
  split; [by intros s0 <-%Hsame|].
  split; [done|]. split; [done|]. split; [done|].
  unfold handle_clear. rewrite Hget. unfold get_session. simpl.
  rewrite lookup_insert_eq. unfold set_manager. simpl. f_equal. f_equal.
  - by rewrite insert_insert_eq.
  - unfold _save_session. simpl. by rewrite insert_insert_eq.
Qed.

Lemma handle_clear_empties_witness :
  ∃ s', sessions (manager (handle_clear (mention 100) replied_world)) !! 7
        = Some s'
        ∧ messages s' = [].
Proof.
  destruct (handle_clear_empties (mention 100) replied_world)
    as (s' & Hs & Hempty & _); [reflexivity|].
  exists s'. split; [exact Hs | exact Hempty].
Defined.
End RegistryMore.

(** * Properties of the access lists and checks *)

Section Access.
Implicit Types (cfg : Config) (event : MessageEvent) (l : list Z).

Lemma remove_first_elem x y l :
  y ∈ remove_first x l → y ∈ l.
Proof.
  induction l as [|z l IH]; simpl; [done|].
  case_bool_decide; [by right|].
  intros [->|Hin]%elem_of_cons; [by left|]. right. by apply IH.
Qed.

Lemma remove_first_NoDup x l :
  NoDup l →
  NoDup (remove_first x l) ∧ (x ∉ remove_first x l)
  ∧ ∀ y, y ≠ x → (y ∈ remove_first x l ↔ y ∈ l).
Proof.
  induction 1 as [|z l Hz Hnd IH]; simpl.
  - split; [constructor|]. split; [apply not_elem_of_nil|]. done.
  - destruct IH as (IH1 & IH2 & IH3). case_bool_decide as Hzx.
    + subst z. split; [done|]. split; [done|].
      intros y Hy. rewrite elem_of_cons. split; [by right|].
      by intros [->|Hin].
    + split; [|split].
      * constructor; [|done]. intros Hin. by apply Hz, (remove_first_elem x).
      * intros [->|Hin]%elem_of_cons; done.
      * intros y Hy. rewrite !elem_of_cons, IH3 by done. done.
Qed.

Lemma append_new_present x l : x ∈ l → append_new x l = l.
Proof. intros Hin. unfold append_new. by rewrite bool_decide_eq_true_2. Qed.

Lemma append_new_absent x l : x ∉ l → append_new x l = l ++ [x].
Proof. intros Hin. unfold append_new. by rewrite bool_decide_eq_false_2. Qed.

Lemma remove_first_snoc x l : x ∉ l → remove_first x (l ++ [x]) = l.
Proof.
  induction l as [|z l IH]; simpl; intros Hnot.
  - by rewrite bool_decide_eq_true_2.
  - apply not_elem_of_cons in Hnot as [Hne Hnot].
    rewrite bool_decide_eq_false_2 by done. f_equal. by apply IH.
Qed.

(** The laws of [append_new] and [remove_present]. *)
Lemma list_edit_laws x l :
  x ∈ append_new x l
  ∧ append_new x (append_new x l) = append_new x l
  ∧ (NoDup l → NoDup (append_new x l))
  ∧ (NoDup l →
     (x ∉ remove_present x l)
     ∧ NoDup (remove_present x l)
     ∧ ∀ y, y ≠ x → (y ∈ remove_present x l ↔ y ∈ l))
  ∧ (x ∉ l → remove_present x (append_new x l) = l).
Proof.
  assert (x ∈ append_new x l) as Hadded.
  { destruct (decide (x ∈ l)) as [Hin|Hin].
    - by rewrite append_new_present.
    - rewrite append_new_absent by done.
      apply elem_of_app. right. by apply list_elem_of_singleton. }
  split; [done|]. split; [by apply append_new_present|]. split.
  { intros Hnd. destruct (decide (x ∈ l)) as [Hin|Hin].
    - by rewrite append_new_present.
    - rewrite append_new_absent by done.
      apply NoDup_app. split; [done|]. split; [|apply NoDup_singleton].
      intros y Hy ->%list_elem_of_singleton. done. }
  split.
  { intros Hnd. unfold remove_present.
    destruct (decide (x ∈ l)) as [Hin|Hin].
    - rewrite bool_decide_eq_true_2 by done.
      destruct (remove_first_NoDup x l Hnd) as (? & ? & ?). done.
    - rewrite bool_decide_eq_false_2 by done. done. }
  intros Hnot. unfold remove_present.
  rewrite bool_decide_eq_true_2 by done.
  rewrite append_new_absent by done. by apply remove_first_snoc.
Qed.

Lemma edits_list_of_lens (get : Config → list Z)
    (set : list Z → Config → Config) :
  (∀ l cfg, get (set l cfg) = l) →
  (∀ l l' cfg, set l (set l' cfg) = set l cfg) →
  (∀ cfg, set (get cfg) cfg = cfg) →
  edits_list get (λ x cfg, set (append_new x (get cfg)) cfg)
    (λ x cfg, set (remove_present x (get cfg)) cfg).
Proof.
  intros Hget Hset Hid cfg x. rewrite !Hget.
  destruct (list_edit_laws x (get cfg))
    as (Hadded & Hagain & Hnodup & Hremoved & Hback).
  split; [done|]. split; [by rewrite Hagain, Hset|].
  split; [intros Hnd; split; [by apply Hnodup|by apply Hremoved]|].
  intros Hnot. by rewrite Hset, Hback, Hid.
Qed.

(** X11. The list edits of the configuration.  [add_admin] and
    [remove_admin] edit the administrator list, [add_user] and
    [remove_user] the private white or black list they name, [add_group] and
    [remove_group] the group white or black list they name: the added id is
    in that list afterwards, never twice, and adding it again changes
    nothing; from a list without duplicates the removed id is gone and every
    other entry stays; removing an id just added to a list that lacked it
    restores the configuration.  Each edit leaves the other lists as they
    are. *)
Theorem access_list_edits :
  edits_list admin_id add_admin remove_admin
  ∧ (∀ lt, edits_list (user_list lt) (add_user lt) (remove_user lt))
  ∧ (∀ lt, edits_list (group_list lt) (add_group lt) (remove_group lt))
  ∧ (∀ cfg x lt lt',
       (user_list lt (add_admin x cfg) = user_list lt cfg
        ∧ user_list lt (remove_admin x cfg) = user_list lt cfg
        ∧ group_list lt (add_admin x cfg) = group_list lt cfg
        ∧ group_list lt (remove_admin x cfg) = group_list lt cfg)
       ∧ (admin_id (add_user lt x cfg) = admin_id cfg
          ∧ admin_id (remove_user lt x cfg) = admin_id cfg
          ∧ user_list (other_list lt) (add_user lt x cfg)
            = user_list (other_list lt) cfg
          ∧ user_list (other_list lt) (remove_user lt x cfg)
            = user_list (other_list lt) cfg
          ∧ group_list lt' (add_user lt x cfg) = group_list lt' cfg
          ∧ group_list lt' (remove_user lt x cfg) = group_list lt' cfg)
       ∧ (admin_id (add_group lt x cfg) = admin_id cfg
          ∧ admin_id (remove_group lt x cfg) = admin_id cfg
          ∧ group_list (other_list lt) (add_group lt x cfg)
            = group_list (other_list lt) cfg
          ∧ group_list (other_list lt) (remove_group lt x cfg)
            = group_list (other_list lt) cfg
          ∧ user_list lt' (add_group lt x cfg) = user_list lt' cfg
          ∧ user_list lt' (remove_group lt x cfg) = user_list lt' cfg)).
Proof.
  split; [|split; [|split]].
  - apply (edits_list_of_lens admin_id set_admin_id);
      [done|done|by intros []].
  - intros lt.
    apply (edits_list_of_lens (user_list lt) (set_user_list lt));
      [by destruct lt|by destruct lt|by intros []; destruct lt].
  - intros lt.
    apply (edits_list_of_lens (group_list lt) (set_group_list lt));
      [by destruct lt|by destruct lt|by intros []; destruct lt].
  - intros cfg x lt lt'. by destruct lt, lt'.
Qed.

Lemma access_list_edits_witness :
  remove_group blacklist 3 (add_group blacklist 3 open_config) = open_config.
Proof.
  destruct access_list_edits as (_ & _ & Hgroup & _).
  destruct (Hgroup blacklist open_config 3) as (_ & _ & _ & Hback).
  apply Hback. apply not_elem_of_nil.
Defined.

Lemma check_mention_access cfg event :
  check_mention cfg event = true → check_access cfg event = true.
Proof. unfold check_mention. by destruct (check_access cfg event). Qed.

(** X12. Commands and other rejected events leave no trace.  A message
    whose stripped text starts with ["/"], ["!"] or ["."] is refused by
    [check_access] and by [check_mention] under every configuration, for
    administrators too; and the handler leaves the whole process as it was
    for any event that [check_access] refuses: no session is created, no
    message stored, no time recorded, no task created. *)
Theorem rejected_event_leaves_no_trace cfg event :
  (is_command (event_raw_message event) = true →
   check_access cfg event = false ∧ check_mention cfg event = false)
  ∧ (check_mention cfg event = true → check_access cfg event = true)
  ∧ (∀ (now : Q) (w : World),
       check_access (config w) event = false →
       handle_all_message now event w = w).
Proof.
  split; [|split].
  - intros Hcmd. unfold check_mention, check_access. by rewrite Hcmd.
  - apply check_mention_access.
  - intros now w Hno. unfold handle_all_message. by rewrite Hno.
Qed.

Lemma rejected_event_leaves_no_trace_witness :
  handle_all_message 0 (private_from 5 "/clear")
    (start_world (add_admin 5 open_config) no_sessions)
  = start_world (add_admin 5 open_config) no_sessions.
Proof.
  apply (proj2 (proj2 (rejected_event_leaves_no_trace
                         (add_admin 5 open_config)
                         (private_from 5 "/clear")))).
  apply (proj1 (rejected_event_leaves_no_trace (add_admin 5 open_config)
                  (private_from 5 "/clear"))).
  reflexivity.
Defined.

(** X13. Who is admitted.  For a message that is not a command: in a
    private chat an administrator is always admitted and qualifies, another
    user is admitted iff the private white list holds them (white-list mode)
    or the private black list does not (black-list mode), and every admitted
    private message qualifies; in a group the decision depends on the group
    id and the group lists alone, so that neither the sender nor the
    administrator list nor the private lists change it. *)
Theorem admission_policy cfg event :
  is_command (event_raw_message event) = false →
  (event_kind_of event = PrivateMessageEvent →
   (event_user_id event ∈ admin_id cfg →
    check_access cfg event = true ∧ check_mention cfg event = true)
   ∧ (event_user_id event ∉ admin_id cfg →
      check_access cfg event
      = if private_enable_whitelist cfg
        then bool_decide (event_user_id event ∈ private_whitelist cfg)
        else bool_decide (event_user_id event ∉ private_blacklist cfg))
   ∧ check_mention cfg event = check_access cfg event)
  ∧ (∀ gid, event_kind_of event = GroupMessageEvent gid →
       check_access cfg event
       = (if group_enable_whitelist cfg
          then bool_decide (gid ∈ group_whitelist cfg)
          else bool_decide (gid ∉ group_blacklist cfg))
       ∧ (∀ admins lt users,
            check_access
              (set_user_list lt users (set_admin_id admins cfg)) event
            = check_access cfg event)).
Proof.
  intros Hcmd. unfold check_mention, check_access. rewrite Hcmd. split.
  - intros ->. split; [|split].
    + intros Hadmin. by rewrite bool_decide_eq_true_2.
    + intros Hnot. rewrite bool_decide_eq_false_2 by done.
      destruct (private_enable_whitelist cfg); [done|].
      by rewrite bool_decide_not.
    + destruct (bool_decide (_ ∈ admin_id cfg)); [done|].
      destruct (private_enable_whitelist cfg); by destruct (bool_decide _).
  - intros gid ->. split.
    + destruct (group_enable_whitelist cfg); [done|].
      by rewrite bool_decide_not.
    + intros admins [] users; done.
Qed.

Lemma admission_policy_witness :
  check_access (add_user blacklist 5 (add_admin 5 open_config))
    (private_from 5 "hello") = true
  ∧ check_mention (add_user blacklist 5 (add_admin 5 open_config))
      (private_from 5 "hello") = true.
Proof.
  apply (proj1 (proj1 (admission_policy
                         (add_user blacklist 5 (add_admin 5 open_config))
                         (private_from 5 "hello") eq_refl) eq_refl)).
  apply (bool_decide_unpack _). vm_compute. exact I.
Defined.

(** X14. Editing the lists changes who is admitted.  For a private
    message that is not a command, from a user who is no administrator, in
    black-list mode: once [add_user blacklist] has run the message is
    refused, and once [remove_user blacklist] has run on a list without
    duplicates it is admitted; and after [add_admin] the user is admitted
    whatever the lists say. *)
Theorem list_edits_take_effect cfg event :
  is_command (event_raw_message event) = false →
  event_kind_of event = PrivateMessageEvent →
  (event_user_id event ∉ admin_id cfg →
   private_enable_whitelist cfg = false →
   check_access (add_user blacklist (event_user_id event) cfg) event = false
   ∧ (NoDup (private_blacklist cfg) →
      check_access (remove_user blacklist (event_user_id event) cfg) event
      = true))
  ∧ check_access (add_admin (event_user_id event) cfg) event = true.
Proof.
  intros Hcmd Hkind.
  destruct (list_edit_laws (event_user_id event) (private_blacklist cfg))
    as (Hadded & _ & _ & Hremoved & _).
  destruct (list_edit_laws (event_user_id event) (admin_id cfg))
    as (Hadmin & _).
  unfold check_access. rewrite Hcmd, Hkind. split.
  - intros Hnot Hmode. simpl. rewrite Hmode.
    rewrite !bool_decide_eq_false_2 by done. split.
    + by rewrite bool_decide_eq_true_2.
    + intros Hnd. destruct (Hremoved Hnd) as (Hgone & _).
      by rewrite bool_decide_eq_false_2.
  - simpl. by rewrite bool_decide_eq_true_2.
Qed.

Lemma list_edits_take_effect_witness :
  check_access (add_user blacklist 5 open_config) (private_from 5 "hello")
  = false.
Proof.
  apply (proj1 (proj1 (list_edits_take_effect open_config
                         (private_from 5 "hello") eq_refl eq_refl)
                  (not_elem_of_nil 5) eq_refl)).
Defined.
End Access.

(** * Further properties of the scheduler *)

Section SchedulerMore.
Implicit Types (w : World) (tid : nat) (sig : signal) (now : Q).

(** X15. The handler creates at most one task.  One call of
    [handle_all_message] never changes the pending set, the sent log, the
    clock or the configuration, and keeps every task; it adds at most one
    task, not yet started, for its own event, and only when the event passes
    [check_mention], its conversation is not marked pending and its time has
    just been recorded.  For a conversation that is marked pending no task
    is added. *)
Theorem handler_creates_at_most_one_task now (event : MessageEvent) w :
  let w' := handle_all_message now event w in
  pending_sessions (session_state w') = pending_sessions (session_state w)
  ∧ sent w' = sent w ∧ clock w' = clock w ∧ config w' = config w
  ∧ (tasks w' = tasks w
     ∨ tasks w' = tasks w ++ [{| task_event := event; task_stage := Created |}]
       ∧ check_mention (config w) event = true
       ∧ (event_session_id event ∉ pending_sessions (session_state w))
       ∧ last_message_time (session_state w') !! event_session_id event
         = Some now)
  ∧ (event_session_id event ∈ pending_sessions (session_state w) →
     tasks w' = tasks w).
Proof.
  cbv zeta. split; [apply handle_all_message_pending|].
  split; [|split; [|split; [|split; [|apply admission_gate]]]].
  1-3: unfold handle_all_message; repeat case_match; done.
  unfold handle_all_message.
  destruct (check_access _ _); simpl; [|auto].
  destruct (get_session _ _) as [[s m1]|]; [|auto].
  destruct (store_message _ _ _) as [m2|]; [|auto]. simpl.
  destruct (check_mention (config w) event) eqn:Hmention; simpl; [|auto].
  destruct (is_pending _ _) eqn:Hpending; simpl; [auto|].
  right. split; [done|]. split; [done|]. split.
  - unfold is_pending in Hpending. simpl in Hpending.
    by apply bool_decide_eq_false in Hpending.
  - apply lookup_insert_eq.
Qed.

(** X16. A quiet cycle fires at its first check.  A cycle that starts at
    loop time [now] sleeps until [now + 5]; when nothing else runs before
    its timer ends, the first check finds at least 5 seconds of silence,
    which is more than the 3 required, and the cycle goes on to the
    query. *)
Theorem quiet_cycle_fires_at_first_check w now tid task w1 (check : Q) w2 :
  tasks w !! tid = Some task →
  task_stage task = Created →
  step w (Resume now tid Begin) = Some w1 →
  step w1 (Resume check tid Timer) = Some w2 →
  stage_of w1 tid = Some (Debouncing (now + 5))
  ∧ (now + 5 <= check)%Q
  ∧ stage_of w2 tid = Some Querying.
Proof.
  intros Htask Hstage Hbegin Htimer.
  apply step_resume in Hbegin as (task0 & s1 & w0 & Htask0 & _ & Hq & ->).
  assert (task0 = task) as -> by congruence.
  pose proof (delayed_llm_query_frame _ _ _ _ _ _ _ Hq) as (Htasks & _ & _).
  revert Hq. unfold delayed_llm_query. rewrite Hstage. intros [= <- <-].
  clear Htasks. split.
  { rewrite stage_of_set_stage, decide_True by done.
    unfold stage_of. simpl. by rewrite Htask. }
  apply step_resume in Htimer as (task2 & s2 & w3 & Htask2 & _ & Hq2 & ->).
  rewrite (tasks_set_stage_eq _ tid task) in Htask2 by exact Htask.
  injection Htask2 as <-.
  pose proof (delayed_llm_query_frame _ _ _ _ _ _ _ Hq2) as (Htasks2 & _ & _).
  unfold delayed_llm_query in Hq2. cbv zeta in Hq2. simpl task_stage in Hq2.
  rewrite (read_time_known _ _ now) in Hq2
    by (simpl; apply lookup_insert_eq).
  cbv beta iota in Hq2.
  destruct (Qle_bool (now + 5) check) eqn:Hdue; [|done].
  apply Qle_bool_iff in Hdue. split; [done|].
  assert (Qle_bool 3 (check - now) = true) as Hquiet
    by (apply Qle_bool_iff; lra).
  rewrite Hquiet in Hq2. injection Hq2 as <- <-.
  rewrite stage_of_set_stage, decide_True by done.
  unfold stage_of. simpl. by rewrite list_lookup_alter_eq, Htask.
Qed.

Lemma quiet_cycle_fires_at_first_check_witness :
  stage_of debouncing_world 0 = Some (Debouncing (0 + 5))
  ∧ (0 + 5 <= 5)%Q
  ∧ stage_of querying_world 0 = Some Querying.
Proof.
  apply (quiet_cycle_fires_at_first_check
           (default fresh_world (run fresh_world [Inbound 0 (mention 100)]))
           0 0%nat {| task_event := mention 100; task_stage := Created |}
           debouncing_world 5 querying_world);
    vm_compute; reflexivity.
Defined.

(** X17. The reply is recorded only after its last part.  A resumption
    of a task changes the session registry or the session files only when it
    is the return of the send of the last part; a cancellation, or an
    exception of a send, at whatever await, leaves registry, files and sent
    log as they are and ends the task, so that no reply is recorded for a
    delivery that was cut short. *)
Theorem reply_recorded_only_after_last_part w now tid sig w' :
  step w (Resume now tid sig) = Some w' →
  (manager w' ≠ manager w →
   ∃ task parts wall, tasks w !! tid = Some task
                      ∧ task_stage task = Sending parts []
                      ∧ sig = Delivered wall)
  ∧ (sig = Cancelled ∨ sig = SendError →
     manager w' = manager w ∧ sent w' = sent w
     ∧ stage_of w' tid = Some Exited).
Proof.
  intros Hstep.
  apply step_resume in Hstep as (task & s & w1 & Htask & _ & Hq & ->).
  pose proof (delayed_llm_query_frame _ _ _ _ _ _ _ Hq) as (Htasks & _ & _).
  simpl in Htasks.
  rewrite stage_of_set_stage, decide_True by done.
  unfold stage_of. rewrite Htasks, Htask. simpl.
  revert Hq. unfold delayed_llm_query. cbv zeta.
  destruct (read_time _ _) as [last_time st].
  destruct (task_stage task) as [|wake| |parts rest|wake parts msg rest|]
    eqn:Hstage, sig; try done.
  all: repeat match goal with
       | |- context [if ?b then _ else _] => destruct b
       | |- context [match ?l with [] => _ | _ => _ end] => destruct l
       end; try done.
  all: intros [= <- <-]; simpl.
  all: split; [|by intros [|]; try done].
  all: try (intros Hne; by destruct Hne).
  intros _. by eexists task, parts, _.
Qed.

Lemma reply_recorded_only_after_last_part_witness :
  manager cancelled_world = manager debouncing_world
  ∧ sent cancelled_world = sent debouncing_world
  ∧ stage_of cancelled_world 0 = Some Exited.
Proof.
  apply (proj2 (reply_recorded_only_after_last_part debouncing_world 1
                  0%nat Cancelled cancelled_world
                  ltac:(vm_compute; reflexivity))).
  left. reflexivity.
Defined.

(** X18. Tasks do not interfere.  A step never removes a task and never
    changes the event a task was created for; the handler leaves every
    existing task as it is, and the resumption of one task leaves every
    other task as it is. *)
Theorem tasks_do_not_interfere w (l : label) w' tid (t : Task) :
  step w l = Some w' →
  tasks w !! tid = Some t →
  (length (tasks w) <= length (tasks w'))%nat
  ∧ ∃ t', tasks w' !! tid = Some t'
          ∧ task_event t' = task_event t
          ∧ (∀ now event, l = Inbound now event → t' = t)
          ∧ (∀ now tid' sig, l = Resume now tid' sig → tid' ≠ tid → t' = t).
Proof.
  intros Hstep Ht. destruct l as [now event|now tid' sig].
  - apply step_inbound in Hstep as ->.
    destruct (handle_all_message_tasks now event (set_clock now w))
      as [new Hnew].
    rewrite Hnew. simpl. rewrite length_app. split; [lia|].
    exists t. split; [by apply lookup_app_l_Some|]. done.
  - apply step_resume in Hstep as (t0 & s & w1 & Ht0 & _ & Hq & ->).
    pose proof (delayed_llm_query_frame _ _ _ _ _ _ _ Hq) as (Htasks & _ & _).
    simpl in Htasks. unfold set_stage. simpl.
    rewrite length_alter, Htasks. split; [done|].
    destruct (decide (tid' = tid)) as [->|Hne].
    + rewrite list_lookup_alter_eq, Ht. simpl. eexists. split; [done|].
      split; [done|]. split; [done|]. by intros ? ? ? [= <- <- <-] ?.
    + rewrite list_lookup_alter_ne, Ht by done. by exists t.
Qed.

Lemma tasks_do_not_interfere_witness :
  (length (tasks debouncing_world) <= length (tasks cancelled_world))%nat.
Proof.
  apply (tasks_do_not_interfere debouncing_world (Resume 1 0%nat Cancelled)
           cancelled_world 0%nat
           {| task_event := mention 100; task_stage := Debouncing 5 |});
    vm_compute; reflexivity.
Defined.
End SchedulerMore.

(** * Properties of the answer's parts *)

Section Parts.
Implicit Types (s line part : pystr) (ch : N).

(** X19. The parts are trimmed lines.  Every part that
    [handle_llm_query] returns is non-empty, begins and ends with a
    character that is not white space, is left unchanged by [strip], and
    holds no line break. *)
Theorem parts_are_trimmed_lines (c : completion) part :
  part ∈ handle_llm_query c →
  part ≠ [] ∧ strip part = part ∧ (newline ∉ part)
  ∧ (∀ ch, head part = Some ch → isspace ch = false)
  ∧ (∀ ch, last part = Some ch → isspace ch = false).
Proof. apply handle_llm_query_trimmed. Qed.

Lemma parts_are_trimmed_lines_witness :
  strip (py "ok") = py "ok" ∧ newline ∉ py "ok".
Proof.
  destruct (parts_are_trimmed_lines (Returned (Some ok_answer)) (py "ok"))
    as (_ & Hfixed & Hline & _).
  - apply (bool_decide_unpack _). vm_compute. exact I.
  - split; [exact Hfixed | exact Hline].
Defined.
End Parts.

(** * Properties of the serialised contents and of the API result *)

Section Objects.
Implicit Types (data : pyobj) (items : list (pystr * pyobj)).

Lemma content_to_dict_other (c : ContentObject) :
  obj_type c ≠ py "type" →
  content_to_dict c
  = [(py "type", ObjStr (obj_type c)); (obj_type c, obj_data c)].
Proof.
  intros Hne. unfold content_to_dict, dict_set.
  by rewrite bool_decide_eq_false_2.
Qed.

Lemma content_to_dict_known (c : ContentObject) :
  obj_type c = py "text" ∨ obj_type c = py "image_url" →
  content_to_dict c
  = [(py "type", ObjStr (obj_type c)); (obj_type c, obj_data c)].
Proof.
  intros Hty. apply content_to_dict_other. by destruct Hty as [-> | ->].
Qed.


(** X20. Contents survive serialisation.  What [to_dict] writes for an
    object that the constructor accepted with type ["text"] or
    ["image_url"] is read back by [from_dict] as the same object; this holds
    for every content the store keeps. *)
Theorem content_round_trip :
  (∀ msg_type data (c : ContentObject),
     SimpleMessageContent_init msg_type data = Ok c →
     msg_type = py "text" ∨ msg_type = py "image_url" →
     content_from_dict (content_to_dict c) = Ok c)
  ∧ (∀ c : SimpleMessageContent,
       content_from_dict (content_to_dict (content_object c))
       = Ok (content_object c)).
Proof.
  assert (∀ msg_type data (c : ContentObject),
            SimpleMessageContent_init msg_type data = Ok c →
            msg_type = py "text" ∨ msg_type = py "image_url" →
            content_from_dict (content_to_dict c) = Ok c) as Hgeneral.
  { intros msg_type data c Hinit Hty.
    assert (obj_type c = msg_type ∧ obj_data c = data) as [Ht Hd].
    { revert Hinit. unfold SimpleMessageContent_init.
      repeat case_match; by intros [= <-]. }
    rewrite content_to_dict_known by (by rewrite Ht).
    rewrite Ht, Hd. unfold content_from_dict.
    destruct Hty as [-> | ->]; simpl; exact Hinit. }
  split; [exact Hgeneral|].
  intros [t|u d].
  - by apply (Hgeneral (py "text") (ObjStr t)); [|left].
  - by apply (Hgeneral (py "image_url")
                (ObjDict [(py "url", ObjStr u); (py "detail", ObjStr d)]));
      [|right].
Qed.

Lemma content_round_trip_witness :
  content_from_dict
    (content_to_dict {| obj_type := py "text"; obj_data := ObjStr (py "hi") |})
  = Ok {| obj_type := py "text"; obj_data := ObjStr (py "hi") |}.
Proof.
  apply (proj1 content_round_trip (py "text") (ObjStr (py "hi"))).
  - reflexivity.
  - left. reflexivity.
Defined.



(** X22. What the API result yields.  A result without choices, or with
    an empty or false-like ["choices"], yields the empty string, and so does
    a result that is no dict; the cycle then has no part to send.  When the
    first choice has a non-empty ["message"], the answer is that message's
    ["content"], whatever ["delta"] and the further choices hold, and the
    empty string if the message has no ["content"]. *)
Theorem extracted_response :
  (∀ result,
     (∀ items, result = ObjDict items →
               truthy (default ObjNone (dict_get (py "choices") items))
               = false) →
     _extract_response_content result = ObjStr []
     ∧ handle_llm_query
         (response_completion (_extract_response_content result)) = [])
  ∧ (∀ items choice more message,
       dict_get (py "choices") items
       = Some (ObjList (ObjDict choice :: more)) →
       dict_get (py "message") choice = Some (ObjDict message) →
       message ≠ [] →
       _extract_response_content (ObjDict items)
       = default (ObjStr []) (dict_get (py "content") message)).
Proof.
  split.
  - intros result Hchoices.
    assert (_extract_response_content result = ObjStr []) as ->.
    { unfold _extract_response_content.
      destruct result as [| | | |items]; try done. simpl.
      by rewrite (Hchoices items eq_refl). }
    done.
  - intros items choice more message Hchoices Hmessage Hne.
    unfold _extract_response_content. simpl.
    rewrite Hchoices. simpl. rewrite Hmessage. simpl.
    by destruct message.
Qed.

Lemma extracted_response_witness :
  _extract_response_content (ObjDict [(py "choices", ObjList [])]) = ObjStr []
  ∧ handle_llm_query
      (response_completion
         (_extract_response_content (ObjDict [(py "choices", ObjList [])])))
    = [].
Proof.
  apply (proj1 extracted_response (ObjDict [(py "choices", ObjList [])])).
  intros items [= <-]. reflexivity.
Defined.
End Objects.
